(** * yin-pitch: the YIN fundamental-frequency estimator of [src/index.mjs]

    A shallow embedding of the class [Yin] (constructor, [getPitch], [_asf],
    [_estimatePeriod]) and the properties of its specification.

    - JavaScript numbers are IEEE 754 binary64 values: [spec_float] with
      precision 53 and maximal exponent 1024, computed with the operations of
      the standard library's [SpecFloat].
    - [this._yinBuffer] is a [Float32Array]: a store rounds to binary32, a
      store outside the array is ignored, a read outside the array gives
      [undefined].
    - Methods run in a small state-and-exception monad over the heap (the
      receiver and the caller's array); each run also yields the list of
      array accesses it performed.
    - The two [while] loops of [_estimatePeriod] recurse on a fuel argument
      and time out when it is exhausted. *)

From Stdlib Require Import String ZArith List Bool Lia.
From Stdlib Require Import Floats.SpecFloat.
Import ListNotations.

Local Open Scope Z_scope.

(** ** JavaScript numbers *)

Module Num.

Definition number : Type := spec_float.

Definition prec : Z := 53.
Definition emax : Z := 1024.

Definition NaN : number := S754_nan.
Definition zero : number := S754_zero false.

(** An integer literal or an integer-valued loop counter as a number. *)
Definition of_Z (z : Z) : number := binary_normalize prec emax z 0 false.

Definition one : number := Eval cbv in of_Z 1.
Definition two : number := Eval cbv in of_Z 2.

Definition add : number -> number -> number := SFadd prec emax.
Definition sub : number -> number -> number := SFsub prec emax.
Definition mul : number -> number -> number := SFmul prec emax.
Definition div : number -> number -> number := SFdiv prec emax.

(** [x ** 2]: the correctly rounded square. *)
Definition pow2 (x : number) : number := mul x x.

(** [a < b], [a <= b], [a >= b], [a === b] on numbers; every comparison with
  NaN is false. *)
Definition ltb : number -> number -> bool := SFltb.
Definition leb : number -> number -> bool := SFleb.
Definition geb (a b : number) : bool := SFleb b a.
Definition strict_eq : number -> number -> bool := SFeqb.

(** Storing into a [Float32Array] rounds to binary32 (ties to even); reading
  gives that binary32 value back as a number. *)
Definition to_binary32 (x : number) : spec_float :=
match x with
| S754_finite s m e => binary_round 24 128 s m e
| _ => x
end.

Definition of_binary32 (x : spec_float) : number :=
match x with
| S754_finite s m e => binary_round prec emax s m e
| _ => x
end.

Definition fround (x : number) : number := of_binary32 (to_binary32 x).

(** The mathematical integer part of a finite number, rounding towards
  zero; [None] for NaN and the infinities. *)
Definition trunc (x : number) : option Z :=
match x with
| S754_zero _ => Some 0
| S754_finite s m e =>
    Some (cond_Zopp s (if 0 <=? e then Z.shiftl (Zpos m) e
                       else Z.shiftr (Zpos m) (- e)))
| _ => None
end.

(** [Some n] when the number is exactly the integer [n]. *)
Definition integer_value (x : number) : option Z :=
match x with
| S754_zero _ => Some 0
| S754_finite s m e =>
    if 0 <=? e then Some (cond_Zopp s (Z.shiftl (Zpos m) e))
    else if Z.land (Zpos m) (Z.ones (- e)) =? 0
         then Some (cond_Zopp s (Z.shiftr (Zpos m) (- e)))
         else None
| _ => None
end.

(** ToInt32 of ECMAScript: NaN and the infinities give 0, everything else is
  truncated and wrapped to 32 bits, two's complement. *)
Definition ToInt32 (x : number) : Z :=
match trunc x with
| None => 0
| Some i =>
    let int32bit := i mod 2 ^ 32 in
    if 2 ^ 31 <=? int32bit then int32bit - 2 ^ 32 else int32bit
end.

(** [Number.isSafeInteger]. *)
Definition isSafeInteger (x : number) : bool :=
match integer_value x with
| Some i => Z.abs i <=? 2 ^ 53 - 1
| None => false
end.

End Num.

Import Num.

(** ** JavaScript values, as far as the class needs them *)

Inductive value : Type :=
| VUndefined
| VNull
| VBoolean (b : bool)
| VNumber (n : number)
| VString (s : string)
| VObject.

Definition typeof (v : value) : string :=
  match v with
  | VUndefined => "undefined"
  | VNull => "object"
  | VBoolean _ => "boolean"
  | VNumber _ => "number"
  | VString _ => "string"
  | VObject => "object"
  end.

(** ToNumber on what an array read can give: an element, or [undefined]. *)
Definition ToNumber (v : option number) : number :=
  match v with
  | Some n => n
  | None => NaN
  end.

(** ** The object and the heap *)

Record Yin : Type := mkYin {
  _bufferLength : number;
  _sampleRate : number;
  _threshold : number;
  _yinBuffer : list number      (* contents of the Float32Array *)
}.

Inductive error : Type :=
| TypeError (msg : string)
| RangeError (msg : string).

Inductive completion (A : Type) : Type :=
| Normal (a : A)
| Throw (e : error)
| Timeout.
Arguments Normal {A} a.
Arguments Throw {A} e.
Arguments Timeout {A}.

(** The heap a call of [getPitch] runs in: the receiver and the array passed
    as [data]. The array is the caller's and does not share storage with the
    private scratch buffer. *)
Record Heap : Type := mkHeap {
  this : Yin;
  data : list number
}.

Inductive access : Type :=
| ReadData (i : Z)
| ReadYin (i : Z)
| WriteYin (i : Z).

(** Reading index [i] of an array: [None] is [undefined]. *)
Definition array_get (l : list number) (i : Z) : option number :=
  if i <? 0 then None else nth_error l (Z.to_nat i).

Fixpoint list_set (l : list number) (n : nat) (v : number) : list number :=
  match l, n with
  | [], _ => []
  | _ :: l', O => v :: l'
  | x :: l', S n' => x :: list_set l' n' v
  end.

(** Writing index [i] of a [Float32Array]: ignored outside the array. *)
Definition f32array_set (l : list number) (i : Z) (v : number) : list number :=
  if i <? 0 then l else list_set l (Z.to_nat i) (fround v).

(** ** The monad *)

Definition M (A : Type) : Type := Heap -> completion A * Heap * list access.

Definition ret {A} (a : A) : M A := fun h => (Normal a, h, []).

Definition bind {A B} (m : M A) (k : A -> M B) : M B :=
  fun h =>
    match m h with
    | (Normal a, h1, t1) =>
        match k a h1 with
        | (r, h2, t2) => (r, h2, t1 ++ t2)
        end
    | (Throw e, h1, t1) => (Throw e, h1, t1)
    | (Timeout, h1, t1) => (Timeout, h1, t1)
    end.

Definition throw {A} (e : error) : M A := fun h => (Throw e, h, []).
Definition timeout {A} : M A := fun h => (Timeout, h, []).

Notation "x <- m ;; k" := (bind m (fun x => k))
  (at level 61, m at next level, right associativity).
Notation "m ;; k" := (bind m (fun _ => k))
  (at level 61, right associativity).

Definition get_bufferLength : M number := fun h => (Normal (_bufferLength (this h)), h, []).
Definition get_sampleRate : M number := fun h => (Normal (_sampleRate (this h)), h, []).
Definition get_threshold : M number := fun h => (Normal (_threshold (this h)), h, []).

(** [this._yinBuffer.length] and [data.length]. *)
Definition yin_length : M Z := fun h => (Normal (Z.of_nat (length (_yinBuffer (this h)))), h, []).
Definition data_length : M Z := fun h => (Normal (Z.of_nat (length (data h))), h, []).

(** [this._yinBuffer[i]], [data[i]] and [this._yinBuffer[i] = v]. *)
Definition yin_read (i : Z) : M (option number) :=
  fun h => (Normal (array_get (_yinBuffer (this h)) i), h, [ReadYin i]).

Definition data_read (i : Z) : M (option number) :=
  fun h => (Normal (array_get (data h) i), h, [ReadData i]).

Definition set_yinBuffer (y : Yin) (b : list number) : Yin :=
  mkYin (_bufferLength y) (_sampleRate y) (_threshold y) b.

Definition yin_write (i : Z) (v : number) : M unit :=
  fun h =>
    (Normal tt,
     mkHeap (set_yinBuffer (this h) (f32array_set (_yinBuffer (this h)) i v)) (data h),
     [WriteYin i]).

(** [for (let i = lo; i < hi; i++) body], with the variables the body
    updates passed from one iteration to the next. The bound of both loops
    of [_asf] is the length of a typed array, which never changes, and the
    body does not assign the counter: the loop runs [hi - lo] times. *)
Fixpoint for_range {V} (n : nat) (i : Z) (body : Z -> V -> M V) (s : V) : M V :=
  match n with
  | O => ret s
  | S n' => s' <- body i s ;; for_range n' (i + 1) body s'
  end.

Definition for_ {V} (lo hi : Z) (body : Z -> V -> M V) (s : V) : M V :=
  for_range (Z.to_nat (hi - lo)) lo body s.

(** [while (cond) body]. *)
Fixpoint while_ {V} (fuel : nat) (cond : V -> M bool) (body : V -> M V) (s : V) : M V :=
  match fuel with
  | O => timeout
  | S fuel' =>
      c <- cond s ;;
      if c then s' <- body s ;; while_ fuel' cond body s'
      else ret s
  end.

(** ** The class *)

Definition DEFAULT_THRESHOLD : number :=
  S754_finite false 7205759403792794 (-55).     (* 0.2 *)

(** [new Float32Array(length)]: the length goes through ToIndex, which
    throws a RangeError outside 0 .. 2^53 - 1, and the buffer of [4 * length]
    bytes is then allocated, which throws a RangeError when the byte length
    exceeds 2^53 - 1. [None] is that RangeError. An engine may also fail to
    allocate a smaller buffer, with the same error; that depends on the host
    and is not modelled. *)
Definition Float32Array_new (len : number) : option (list number) :=
  match len with
  | S754_nan => Some []
  | _ =>
      match trunc len with
      | Some n => if (n <? 0) || (2 ^ 53 - 1 <? n) then None
                  else if 2 ^ 53 - 1 <? 4 * n then None
                  else Some (repeat zero (Z.to_nat n))
      | None => None
      end
  end.

(** [bufferLength] and [sampleRate] are numbers, as documented; [threshold]
    is any value, [undefined] when the argument is omitted. *)
Definition constructor (bufferLength sampleRate : number) (threshold : value)
  : completion Yin :=
  let threshold :=
    match threshold with VUndefined => VNumber DEFAULT_THRESHOLD | v => v end in
  if negb (Z.land (ToInt32 bufferLength) 1 =? 0) then
    Throw (TypeError "The buffer length must be a multiple of two")
  else if leb sampleRate zero || negb (isSafeInteger sampleRate) then
    Throw (TypeError "The sample rate must be a positive integer")
  else
    match threshold with
    | VNumber t =>
        if leb t zero || geb t one then
          Throw (TypeError "The threshold must be a positive number between 0 and 1")
        else
          match Float32Array_new (div bufferLength two) with
          | Some buf => Normal (mkYin bufferLength sampleRate t buf)
          | None => Throw (RangeError "Invalid typed array length")
          end
    | _ =>                      (* typeof threshold !== "number" *)
        Throw (TypeError "The threshold must be a positive number between 0 and 1")
    end.

Definition _asf : M unit :=
  let total := zero in
  (* Step 1 : auto-correlation function *)
  yin_write 0 one ;;
  len <- yin_length ;;
  _ <- for_ 1 len (fun tau total =>
         let sum := zero in
         sum <- for_ 0 len (fun index sum =>
                  a <- data_read index ;;
                  b <- data_read (index + tau) ;;
                  (* Step 2 : the delta is squared *)
                  ret (add sum (pow2 (sub (ToNumber a) (ToNumber b))))) sum ;;
         (* Step 3 : cumulative mean normalized difference *)
         let total := add total sum in
         yin_write tau (mul sum (div (of_Z tau) total)) ;;
         ret total) total ;;
  ret tt.

(** Step 4 : absolute threshold; the lag the two loops stop at. *)
Definition _estimatePeriod_step4 (fuel : nat) : M Z :=
  len <- yin_length ;;
  let maxLag := len - 1 in
  let tau := 2 in
  tau <- while_ fuel
           (fun tau =>
              if tau <? maxLag then
                v <- yin_read tau ;;
                threshold <- get_threshold ;;
                ret (geb (ToNumber v) threshold)
              else ret false)
           (fun tau => ret (tau + 1)) tau ;;
  while_ fuel
    (fun tau =>
       if tau <? maxLag then
         a <- yin_read (tau + 1) ;;
         b <- yin_read tau ;;
         ret (ltb (ToNumber a) (ToNumber b))
       else ret false)
    (fun tau => ret (tau + 1)) tau.

(** Step 5 : the parabolic interpolation around the lag. *)
Definition _estimatePeriod_step5 (tau : Z) : M (option number) :=
  a <- yin_read (tau - 1) ;;
  b <- yin_read (tau + 1) ;;
  let delta := sub (ToNumber a) (ToNumber b) in
  c <- yin_read (tau + 1) ;;
  d <- yin_read tau ;;
  e <- yin_read (tau - 1) ;;
  let den := add (sub (ToNumber c) (mul two (ToNumber d))) (ToNumber e) in
  ret (Some (if strict_eq den zero then of_Z tau
             else add (of_Z tau) (div delta (mul two den)))).

(** The result is a number or [null]; [None] is [null]. *)
Definition _estimatePeriod (fuel : nat) : M (option number) :=
  tau <- _estimatePeriod_step4 fuel ;;
  _estimatePeriod_step5 tau.

Definition getPitch (fuel : nat) : M number :=
  n <- data_length ;;
  bufferLength <- get_bufferLength ;;
  if negb (strict_eq (of_Z n) bufferLength) then
    throw (TypeError "Incorrect buffer size")
  else
    _asf ;;
    period <- _estimatePeriod fuel ;;
    match period with
    | Some period =>            (* period !== null *)
        sampleRate <- get_sampleRate ;;
        ret (div sampleRate period)
    | None => ret (of_Z (-1))
    end.

(** ** Running a computation *)

Definition result {A} (r : completion A * Heap * list access) : completion A :=
  fst (fst r).
Definition heap_of {A} (r : completion A * Heap * list access) : Heap :=
  snd (fst r).
Definition trace_of {A} (r : completion A * Heap * list access) : list access :=
  snd r.

(** ** What the specification says, in its own words *)

Module Spec.
Section Frame.
Variable samples : list number.
Variable L : nat.                      (* frameLength / 2 *)

Definition sample (i : nat) : number := nth i samples zero.

Definition sq_diff (tau i : nat) : number :=
  pow2 (sub (sample i) (sample (i + tau))).

(** sum_tau: the sum over i from 0 to L-1 of (samples[i] - samples[i+tau])^2. *)
Definition sum_tau (tau : nat) : number :=
  fold_left add (map (sq_diff tau) (seq 0 L)) zero.

(** total_tau: the cumulative sum of sum_1 .. sum_tau. *)
Definition total_tau (tau : nat) : number :=
  fold_left add (map sum_tau (seq 1 tau)) zero.

(** The cumulative mean normalized difference sum * (tau / total). *)
Definition cmndf (tau : nat) : number :=
  mul (sum_tau tau) (div (of_Z (Z.of_nat tau)) (total_tau tau)).
End Frame.

Section Interpolation.
Variable scratchBuffer : list number.
Variable tau : Z.

Definition sb (i : Z) : number := ToNumber (array_get scratchBuffer i).

Definition delta : number := sub (sb (tau - 1)) (sb (tau + 1)).
Definition den : number :=
  add (sub (sb (tau + 1)) (mul two (sb tau))) (sb (tau - 1)).

Definition refinedPeriod : number :=
  if strict_eq den zero then of_Z tau
  else add (of_Z tau) (div delta (mul two den)).
End Interpolation.
End Spec.

(** ** Definitions for the statements and their proofs *)

(** The length test at the head of [getPitch]. *)
Definition accepts (h : Heap) : bool :=
  strict_eq (of_Z (Z.of_nat (length (data h)))) (_bufferLength (this h)).

Definition with_buffer (h : Heap) (b : list number) : Heap :=
  mkHeap (set_yinBuffer (this h) b) (data h).

(** [maxLag] of [_estimatePeriod]. *)
Definition maxLag_of (h : Heap) : Z := Z.of_nat (length (_yinBuffer (this h))) - 1.

(** Phase A in closed form: what the loops of [_asf] compute from the array
    [d] passed as [data] for a scratch buffer of length [L]. *)
Section AsfClosedForm.
Variable d : list number.
Variable L : nat.

Definition rd (i : nat) : number := ToNumber (nth_error d i).

Definition asf_sq (tau i : nat) : number := pow2 (sub (rd i) (rd (i + tau))).

Definition asf_sum (tau : nat) : number :=
  fold_left add (map (asf_sq tau) (seq 0 L)) zero.

Definition asf_total (tau : nat) : number :=
  fold_left add (map asf_sum (seq 1 tau)) zero.

Definition asf_entry (i : nat) : number :=
  match i with
  | O => fround one
  | S _ => fround (mul (asf_sum i) (div (of_Z (Z.of_nat i)) (asf_total i)))
  end.

Definition asf_buffer : list number := map asf_entry (seq 0 L).
End AsfClosedForm.

(** The heap Phase A leaves. *)
Definition after_asf (h : Heap) : Heap :=
  with_buffer h (asf_buffer (data h) (length (_yinBuffer (this h)))).

(** What [getPitch] does once [_asf] has run. *)
Definition pitch_of_period (fuel : nat) : M number :=
  period <- _estimatePeriod fuel ;;
  match period with
  | Some period =>
      sampleRate <- get_sampleRate ;;
      ret (div sampleRate period)
  | None => ret (of_Z (-1))
  end.

(** Total correctness triples. [hoare ok P m Q]: from a heap satisfying [P]
    the computation [m] completes normally, every array access it performs
    satisfies [ok], and its value and final heap satisfy [Q]. *)
Definition hoare {A} (ok : access -> Prop) (P : Heap -> Prop) (m : M A)
           (Q : A -> Heap -> Prop) : Prop :=
  forall h, P h ->
    exists a h' t, m h = (Normal a, h', t) /\ Forall ok t /\ Q a h'.

Definition any_access (a : access) : Prop := True.

(** An access inside the array it goes to, for a scratch buffer of length
    [L] and a frame of length [2 * L]. *)
Definition in_bounds (L : nat) (a : access) : Prop :=
  match a with
  | ReadData i => 0 <= i < 2 * Z.of_nat L
  | ReadYin i => 0 <= i < Z.of_nat L
  | WriteYin i => 0 <= i < Z.of_nat L
  end.

(** The accesses of Phase A over a scratch buffer of length [L]. *)
Definition asf_accesses (ok : access -> Prop) (L : nat) : Prop :=
  ok (WriteYin 0) /\
  forall tau, 1 <= tau < Z.of_nat L ->
    ok (WriteYin tau) /\
    forall index, 0 <= index < Z.of_nat L ->
      ok (ReadData index) /\ ok (ReadData (index + tau)).

(** The accesses of Phase B below the last lag [maxLag]. *)
Definition step4_accesses (ok : access -> Prop) (maxLag : Z) : Prop :=
  forall tau, 2 <= tau < maxLag -> ok (ReadYin tau) /\ ok (ReadYin (tau + 1)).

(** Computations that leave the heap alone. *)
Definition readonly {A} (m : M A) : Prop := forall h, heap_of (m h) = h.

(** Concrete estimators and frames: [new Yin(8, 8000)], [new Yin(4, 8000)]
    and four frames. *)
Definition nums (l : list Z) : list number := map of_Z l.

Definition yin8 : Yin := mkYin (of_Z 8) (of_Z 8000) DEFAULT_THRESHOLD (repeat zero 4).
Definition yin4 : Yin := mkYin (of_Z 4) (of_Z 8000) DEFAULT_THRESHOLD (repeat zero 2).

Definition silent8 : Heap := mkHeap yin8 (nums [0; 0; 0; 0; 0; 0; 0; 0]).
Definition click8 : Heap := mkHeap yin8 (nums [1; 0; 0; 0; 0; 0; 0; 0]).
Definition pulses8 : Heap := mkHeap yin8 (nums [1; 0; 1; 0; 1; 1; 0; 0]).
Definition silent4 : Heap := mkHeap yin4 (nums [0; 0; 0; 0]).

(** [new Yin(0, 8000)] and the empty frame it accepts. *)
Definition yin0 : Yin := mkYin (of_Z 0) (of_Z 8000) DEFAULT_THRESHOLD [].
Definition empty0 : Heap := mkHeap yin0 [].

(** A heap whose estimator has a NaN threshold, with a given scratch buffer. *)
Definition nan_threshold_heap : Heap :=
  mkHeap (mkYin (of_Z 8) (of_Z 8000) NaN (nums [1; 1; 1; 0])) (nums []).

(** ** Lists as arrays *)

Lemma array_get_of_nat (l : list number) (i : nat) :
  array_get l (Z.of_nat i) = nth_error l i.
Proof.
  unfold array_get.
  destruct (Z.ltb_spec (Z.of_nat i) 0) as [H | H]; [lia |].
  now rewrite Nat2Z.id.
Qed.

Lemma list_set_length (l : list number) (n : nat) (v : number) :
  length (list_set l n v) = length l.
Proof.
  revert n; induction l as [| x l IH]; intros [| n]; simpl; auto.
Qed.

Lemma list_set_same (l : list number) (n : nat) (v : number) :
  (n < length l)%nat -> nth_error (list_set l n v) n = Some v.
Proof.
  revert n; induction l as [| x l IH]; intros [| n] H; simpl in *; try lia; auto.
  apply IH; lia.
Qed.

Lemma list_set_other (l : list number) (n i : nat) (v : number) :
  i <> n -> nth_error (list_set l n v) i = nth_error l i.
Proof.
  revert n i; induction l as [| x l IH]; intros [| n] [| i] H; simpl; auto.
  congruence.
Qed.

Lemma f32array_set_length (l : list number) (i : Z) (v : number) :
  length (f32array_set l i v) = length l.
Proof.
  unfold f32array_set. destruct (i <? 0); auto using list_set_length.
Qed.

Lemma f32array_set_of_nat (l : list number) (i : nat) (v : number) :
  f32array_set l (Z.of_nat i) v = list_set l i (fround v).
Proof.
  unfold f32array_set.
  destruct (Z.ltb_spec (Z.of_nat i) 0) as [H | H]; [lia |].
  now rewrite Nat2Z.id.
Qed.

Lemma list_by_index (l : list number) (f : nat -> number) :
  (forall i, (i < length l)%nat -> nth_error l i = Some (f i)) ->
  l = map f (seq 0 (length l)).
Proof.
  intros H. apply nth_error_ext. intros n.
  destruct (Nat.lt_ge_cases n (length l)) as [Hn | Hn].
  - rewrite H by assumption.
    rewrite nth_error_map, nth_error_seq.
    destruct (Nat.ltb_spec n (length l)); [reflexivity | lia].
  - transitivity (@None number).
    + now apply nth_error_None.
    + symmetry. apply nth_error_None. now rewrite length_map, length_seq.
Qed.

(** ** The rules of the triples *)

Section Logic.
Variable ok : access -> Prop.

Lemma hoare_ret {A} (P : Heap -> Prop) (a : A) (Q : A -> Heap -> Prop) :
  (forall h, P h -> Q a h) -> hoare ok P (ret a) Q.
Proof. intros H h Hp. exists a, h, []. repeat split; auto. Qed.

Lemma hoare_bind {A B} (P : Heap -> Prop) (R : A -> Heap -> Prop)
      (Q : B -> Heap -> Prop) (m : M A) (k : A -> M B) :
  hoare ok P m R -> (forall a, hoare ok (R a) (k a) Q) -> hoare ok P (bind m k) Q.
Proof.
  intros Hm Hk h Hp.
  destruct (Hm h Hp) as (a & h1 & t1 & E1 & F1 & Hr).
  destruct (Hk a h1 Hr) as (b & h2 & t2 & E2 & F2 & Hq).
  exists b, h2, (t1 ++ t2). repeat split; [| now apply Forall_app | assumption].
  unfold bind. now rewrite E1, E2.
Qed.

Lemma hoare_conseq {A} (P P' : Heap -> Prop) (Q Q' : A -> Heap -> Prop) (m : M A) :
  hoare ok P' m Q' -> (forall h, P h -> P' h) -> (forall a h, Q' a h -> Q a h) ->
  hoare ok P m Q.
Proof.
  intros Hm Hp Hq h H.
  destruct (Hm h (Hp h H)) as (a & h' & t & E & F & Hq').
  exists a, h', t. auto.
Qed.

Lemma hoare_for_range {V} (I : nat -> V -> Heap -> Prop) (body : Z -> V -> M V) :
  forall (n k : nat) (s : V),
    (forall j s, (k <= j < k + n)%nat ->
       hoare ok (I j s) (body (Z.of_nat j) s) (fun s' => I (S j) s')) ->
    hoare ok (I k s) (for_range n (Z.of_nat k) body s) (fun s' => I (k + n)%nat s').
Proof.
  induction n as [| n IH]; intros k s Hbody; simpl.
  - apply hoare_ret. intros h Hh. now rewrite Nat.add_0_r.
  - eapply hoare_bind.
    + apply Hbody. lia.
    + intros s'. replace (Z.of_nat k + 1) with (Z.of_nat (S k)) by lia.
      replace (k + S n)%nat with (S k + n)%nat by lia.
      apply IH. intros j s0 Hj. apply Hbody. lia.
Qed.

Lemma hoare_for_ {V} (I : nat -> V -> Heap -> Prop) (body : Z -> V -> M V)
      (lo hi : nat) (s : V) :
  (forall j s, (lo <= j < hi)%nat ->
     hoare ok (I j s) (body (Z.of_nat j) s) (fun s' => I (S j) s')) ->
  hoare ok (I lo s) (for_ (Z.of_nat lo) (Z.of_nat hi) body s)
        (fun s' => I (lo + (hi - lo))%nat s').
Proof.
  intros Hbody. unfold for_.
  replace (Z.to_nat (Z.of_nat hi - Z.of_nat lo)) with (hi - lo)%nat by lia.
  apply hoare_for_range. intros j s0 Hj. apply Hbody. lia.
Qed.

(** A loop whose guard leaves [I'] when it holds and [Q] when it fails, and
    whose body lowers the variant [W], completes once the fuel exceeds the
    variant. *)
Lemma hoare_while {V} (I I' Q : V -> Heap -> Prop) (W : V -> nat)
      (cond : V -> M bool) (body : V -> M V) :
  (forall s, hoare ok (I s) (cond s) (fun c h => if c then I' s h else Q s h)) ->
  (forall s, hoare ok (I' s) (body s) (fun s' h => I s' h /\ (W s' < W s)%nat)) ->
  forall (fuel : nat) (s : V),
    (W s < fuel)%nat -> hoare ok (I s) (while_ fuel cond body s) Q.
Proof.
  intros Hcond Hbody.
  induction fuel as [| fuel IH]; intros s Hv; [lia |]. simpl.
  eapply hoare_bind; [apply Hcond |].
  intros [|].
  - intros h Hh. destruct (Hbody s h Hh) as (s' & h1 & t1 & E1 & F1 & Hi & Hlt).
    destruct (IH s' ltac:(lia) h1 Hi) as (s2 & h2 & t2 & E2 & F2 & Hq).
    exists s2, h2, (t1 ++ t2). repeat split; [| now apply Forall_app | assumption].
    unfold bind. now rewrite E1, E2.
  - apply hoare_ret. auto.
Qed.

(** The primitive heap operations. *)

Lemma hoare_data_read (h0 : Heap) (i : Z) :
  ok (ReadData i) ->
  hoare ok (fun h => h = h0) (data_read i)
        (fun v h => h = h0 /\ v = array_get (data h0) i).
Proof. intros Hok h ->. do 3 eexists. split; [reflexivity | auto]. Qed.

Lemma hoare_yin_read (h0 : Heap) (i : Z) :
  ok (ReadYin i) ->
  hoare ok (fun h => h = h0) (yin_read i)
        (fun v h => h = h0 /\ v = array_get (_yinBuffer (this h0)) i).
Proof. intros Hok h ->. do 3 eexists. split; [reflexivity | auto]. Qed.

Lemma hoare_yin_length (h0 : Heap) :
  hoare ok (fun h => h = h0) yin_length
        (fun n h => h = h0 /\ n = Z.of_nat (length (_yinBuffer (this h0)))).
Proof. intros h ->. do 3 eexists. split; [reflexivity | auto]. Qed.

Lemma hoare_get_threshold (h0 : Heap) :
  hoare ok (fun h => h = h0) get_threshold
        (fun v h => h = h0 /\ v = _threshold (this h0)).
Proof. intros h ->. do 3 eexists. split; [reflexivity | auto]. Qed.

Lemma hoare_get_sampleRate (h0 : Heap) :
  hoare ok (fun h => h = h0) get_sampleRate
        (fun v h => h = h0 /\ v = _sampleRate (this h0)).
Proof. intros h ->. do 3 eexists. split; [reflexivity | auto]. Qed.

Lemma hoare_yin_write (h0 : Heap) (i : Z) (v : number) :
  ok (WriteYin i) ->
  hoare ok (fun h => h = h0) (yin_write i v)
        (fun _ h =>
           h = mkHeap (set_yinBuffer (this h0) (f32array_set (_yinBuffer (this h0)) i v))
                      (data h0)).
Proof. intros Hok h ->. do 3 eexists. split; [reflexivity | auto]. Qed.
End Logic.

(** ** Phase A in closed form *)

Lemma asf_total_S (d : list number) (L tau : nat) :
  asf_total d L (S tau) = add (asf_total d L tau) (asf_sum d L (S tau)).
Proof.
  unfold asf_total. now rewrite seq_S, map_app, fold_left_app.
Qed.

Lemma asf_buffer_length (d : list number) (L : nat) :
  length (asf_buffer d L) = L.
Proof. unfold asf_buffer. now rewrite length_map, length_seq. Qed.

Lemma asf_buffer_nth (d : list number) (L i : nat) :
  (i < L)%nat -> nth_error (asf_buffer d L) i = Some (asf_entry d L i).
Proof.
  intros H. unfold asf_buffer. rewrite nth_error_map, nth_error_seq.
  destruct (Nat.ltb_spec i L); [reflexivity | lia].
Qed.

Section PhaseA.
Variable ok : access -> Prop.
Variable h0 : Heap.

Let L : nat := length (_yinBuffer (this h0)).

Hypothesis Hok : asf_accesses ok L.

Lemma asf_inner_loop (b : list number) (tau : nat) :
  (1 <= tau < L)%nat ->
  hoare ok (fun h => h = with_buffer h0 b)
        (for_ 0 (Z.of_nat L)
           (fun index sum =>
              a <- data_read index ;;
              b <- data_read (index + Z.of_nat tau) ;;
              ret (add sum (pow2 (sub (ToNumber a) (ToNumber b))))) zero)
        (fun sum h => h = with_buffer h0 b /\ sum = asf_sum (data h0) L tau).
Proof.
  intros Htau.
  pose (I := fun (j : nat) (acc : number) (h : Heap) =>
               h = with_buffer h0 b /\
               acc = fold_left add (map (asf_sq (data h0) tau) (seq 0 j)) zero).
  eapply hoare_conseq.
  - apply (hoare_for_ ok I _ 0%nat L zero).
    intros j acc Hj h [-> ->].
    destruct Hok as [_ Hr].
    destruct (Hr (Z.of_nat tau) ltac:(lia)) as [_ Hr'].
    destruct (Hr' (Z.of_nat j) ltac:(lia)) as [Hr1 Hr2].
    do 3 eexists. split; [reflexivity |].
    split; [repeat constructor; assumption |].
    split; [reflexivity |].
    rewrite seq_S, map_app, fold_left_app. simpl.
    unfold asf_sq, rd.
    rewrite array_get_of_nat.
    replace (Z.of_nat j + Z.of_nat tau) with (Z.of_nat (j + tau)) by lia.
    now rewrite array_get_of_nat.
  - intros h ->. split; reflexivity.
  - intros acc h [-> ->]. split; [reflexivity |].
    simpl. now rewrite Nat.sub_0_r.
Qed.

Lemma asf_outer_loop (b0 : list number) (len : Z) :
  length b0 = L ->
  len = Z.of_nat L ->
  (forall i, (i < 1)%nat -> (i < L)%nat ->
             nth_error b0 i = Some (asf_entry (data h0) L i)) ->
  hoare ok (fun h => h = with_buffer h0 b0)
        (for_ 1 len
           (fun tau total =>
              let sum := zero in
              sum <- for_ 0 len
                       (fun index sum =>
                          a <- data_read index ;;
                          b <- data_read (index + tau) ;;
                          ret (add sum (pow2 (sub (ToNumber a) (ToNumber b))))) sum ;;
              let total := add total sum in
              yin_write tau (mul sum (div (of_Z tau) total)) ;;
              ret total) zero)
        (fun _ h => h = with_buffer h0 (asf_buffer (data h0) L)).
Proof.
  intros Hlen -> H0.
  pose (I := fun (j : nat) (total : number) (h : Heap) =>
               exists b,
                 h = with_buffer h0 b /\ length b = L /\
                 total = asf_total (data h0) L (j - 1) /\
                 forall i, (i < j)%nat -> (i < L)%nat ->
                           nth_error b i = Some (asf_entry (data h0) L i)).
  eapply hoare_conseq.
  - apply (hoare_for_ ok I _ 1%nat L zero).
    intros j total Hj. simpl.
    apply hoare_bind
      with (R := fun sum h => sum = asf_sum (data h0) L j /\ I j total h).
    + intros h (b & -> & Hb & Ht & Hi).
      destruct (asf_inner_loop b j Hj (with_buffer h0 b) eq_refl)
        as (sum & h' & t & E & F & -> & Hs).
      exists sum, (with_buffer h0 b), t. split; [exact E |]. split; [exact F |].
      exact (conj Hs (ex_intro _ b (conj eq_refl (conj Hb (conj Ht Hi))))).
    + intros sum h (Hs & b & -> & Hb & Ht & Hi).
      destruct Hok as [_ Hw]. destruct (Hw (Z.of_nat j) ltac:(lia)) as [Hw' _].
      do 3 eexists. split; [reflexivity |].
      split; [repeat constructor; assumption |].
      exists (f32array_set b (Z.of_nat j)
                (mul sum (div (of_Z (Z.of_nat j)) (add total sum)))).
      split; [reflexivity |].
      split; [now rewrite f32array_set_length |].
      destruct j as [| j']; [lia |].
      assert (Ht' : add total sum = asf_total (data h0) L (S j')).
      { rewrite asf_total_S, Hs, Ht.
        now replace (S j' - 1)%nat with j' by lia. }
      split; [now replace (S (S j') - 1)%nat with (S j') by lia |].
      intros i Hlt HL. rewrite f32array_set_of_nat.
      destruct (Nat.eq_dec i (S j')) as [-> | Hne].
      * rewrite list_set_same by lia. rewrite Ht', Hs. reflexivity.
      * rewrite list_set_other by assumption. apply Hi; lia.
  - intros h ->. exists b0. repeat split; auto.
  - intros total h (b & -> & Hb & _ & Hi).
    f_equal. unfold asf_buffer.
    assert (E : b = map (asf_entry (data h0) L) (seq 0 (length b))).
    { apply list_by_index. intros i Hlt. apply Hi; lia. }
    rewrite Hb in E. exact E.
Qed.

(** [_asf] always completes; it leaves the receiver's configuration and
    the caller's array as they were and fills the whole scratch buffer. *)
Lemma _asf_hoare :
  hoare ok (fun h => h = h0) _asf
        (fun _ h => h = with_buffer h0 (asf_buffer (data h0) L)).
Proof.
  set (b0 := f32array_set (_yinBuffer (this h0)) 0 one).
  assert (Hlen : length b0 = L) by apply f32array_set_length.
  assert (H0 : forall i, (i < 1)%nat -> (i < L)%nat ->
                         nth_error b0 i = Some (asf_entry (data h0) L i)).
  { intros i Hi HL. assert (i = 0)%nat as -> by lia.
    unfold b0. change 0 with (Z.of_nat 0). rewrite f32array_set_of_nat.
    now rewrite list_set_same by exact HL. }
  destruct Hok as [Hw0 _].
  unfold _asf.
  eapply hoare_bind; [apply hoare_yin_write; exact Hw0 |]. intros u.
  eapply hoare_bind; [apply hoare_yin_length |]. intros len.
  apply hoare_bind with (R := fun _ h => h = with_buffer h0 (asf_buffer (data h0) L)).
  - intros h [-> Hl].
    apply (asf_outer_loop b0 len Hlen); [| exact H0 | reflexivity].
    rewrite Hl. simpl. fold b0. now rewrite Hlen.
  - intros u'. apply hoare_ret. auto.
Qed.
End PhaseA.

Lemma asf_accesses_any (L : nat) : asf_accesses any_access L.
Proof. repeat split. Qed.

Lemma _asf_run (h : Heap) :
  exists t,
    _asf h = (Normal tt,
              with_buffer h (asf_buffer (data h) (length (_yinBuffer (this h)))), t).
Proof.
  destruct (_asf_hoare any_access h (asf_accesses_any _) h eq_refl)
    as ([] & h' & t & E & _ & ->).
  now exists t.
Qed.

(** ** Computations that leave the heap alone *)

Lemma readonly_ret {A} (a : A) : readonly (ret a).
Proof. intros h. reflexivity. Qed.

Lemma readonly_timeout {A} : readonly (@timeout A).
Proof. intros h. reflexivity. Qed.

Lemma readonly_bind {A B} (m : M A) (k : A -> M B) :
  readonly m -> (forall a, readonly (k a)) -> readonly (bind m k).
Proof.
  intros Hm Hk h. unfold bind.
  specialize (Hm h). unfold heap_of in *.
  destruct (m h) as [[[a | e |] h1] t1]; simpl in *; subst h1; auto.
  specialize (Hk a h). destruct (k a h) as [[r h2] t2]. exact Hk.
Qed.

Lemma readonly_while {V} (cond : V -> M bool) (body : V -> M V) :
  (forall s, readonly (cond s)) -> (forall s, readonly (body s)) ->
  forall fuel s, readonly (while_ fuel cond body s).
Proof.
  intros Hc Hb. induction fuel as [| fuel IH]; intros s; simpl.
  - apply readonly_timeout.
  - apply readonly_bind; [apply Hc |].
    intros [|]; [| apply readonly_ret].
    apply readonly_bind; [apply Hb | apply IH].
Qed.

Lemma readonly_yin_read (i : Z) : readonly (yin_read i).
Proof. intros h. reflexivity. Qed.

Lemma readonly_yin_length : readonly yin_length.
Proof. intros h. reflexivity. Qed.

Lemma readonly_get_threshold : readonly get_threshold.
Proof. intros h. reflexivity. Qed.

Lemma readonly_get_sampleRate : readonly get_sampleRate.
Proof. intros h. reflexivity. Qed.

Create HintDb yin_ro.
#[local] Hint Resolve readonly_ret readonly_timeout readonly_yin_read
  readonly_yin_length readonly_get_threshold readonly_get_sampleRate : yin_ro.

Ltac readonly_steps :=
  repeat first
    [ apply readonly_bind; [| intros ?]
    | apply readonly_while; intros ?
    | match goal with |- readonly (if ?c then _ else _) => destruct c end
    | solve [auto with yin_ro] ].

Lemma readonly_step4 (fuel : nat) : readonly (_estimatePeriod_step4 fuel).
Proof. unfold _estimatePeriod_step4. readonly_steps. Qed.

Lemma readonly_step5 (tau : Z) : readonly (_estimatePeriod_step5 tau).
Proof. intros h. reflexivity. Qed.

Lemma readonly_estimatePeriod (fuel : nat) : readonly (_estimatePeriod fuel).
Proof.
  unfold _estimatePeriod.
  apply readonly_bind; [apply readonly_step4 | apply readonly_step5].
Qed.

(** ** Phase B *)

Section PhaseB.
Variable ok : access -> Prop.
Variable h0 : Heap.
Variable fuel : nat.
Hypothesis Hfuel : (length (_yinBuffer (this h0)) < fuel)%nat.

Let maxLag : Z := maxLag_of h0.

Hypothesis Hok : step4_accesses ok maxLag.

Let I (tau : Z) (h : Heap) : Prop := h = h0 /\ 2 <= tau <= Z.max 2 maxLag.
Let I' (tau : Z) (h : Heap) : Prop := h = h0 /\ 2 <= tau < maxLag.
Let W (tau : Z) : nat := Z.to_nat (maxLag - tau).

Lemma step4_body (tau : Z) :
  hoare ok (I' tau) (ret (tau + 1))
        (fun tau' h => I tau' h /\ (W tau' < W tau)%nat).
Proof.
  apply hoare_ret. intros h [-> Ht]. unfold I, W. repeat split; lia.
Qed.

Lemma step4_fuel (tau : Z) : 2 <= tau -> (W tau < fuel)%nat.
Proof. intros Ht. unfold W, maxLag, maxLag_of. lia. Qed.

(** Until the error rate is below the threshold. *)
Lemma step4_first_loop :
  hoare ok (I 2)
        (while_ fuel
           (fun tau =>
              if tau <? maxLag then
                v <- yin_read tau ;;
                threshold <- get_threshold ;;
                ret (geb (ToNumber v) threshold)
              else ret false)
           (fun tau => ret (tau + 1)) 2)
        I.
Proof.
  apply (hoare_while ok I I' I W); [| exact step4_body | apply step4_fuel; lia].
  intros tau h [-> Ht].
  destruct (Z.ltb_spec tau maxLag) as [Hlt | Hge].
  - destruct (Hok tau ltac:(lia)) as [Hr _].
    do 3 eexists. split; [reflexivity |].
    split; [repeat constructor; assumption |].
    destruct (geb _ _); unfold I, I'; repeat split; lia.
  - do 3 eexists. split; [reflexivity |]. split; [constructor |].
    unfold I. split; [reflexivity | lia].
Qed.

(** Find the lowest possible value of the lag. *)
Lemma step4_second_loop (tau0 : Z) :
  hoare ok (I tau0)
        (while_ fuel
           (fun tau =>
              if tau <? maxLag then
                a <- yin_read (tau + 1) ;;
                b <- yin_read tau ;;
                ret (ltb (ToNumber a) (ToNumber b))
              else ret false)
           (fun tau => ret (tau + 1)) tau0)
        I.
Proof.
  intros h Hh.
  assert (Hw : (W tau0 < fuel)%nat) by (apply step4_fuel; destruct Hh; lia).
  revert h Hh.
  apply (hoare_while ok I I' I W); [| exact step4_body | exact Hw].
  intros tau h [-> Ht].
  destruct (Z.ltb_spec tau maxLag) as [Hlt | Hge].
  - destruct (Hok tau ltac:(lia)) as [Hr Hr'].
    do 3 eexists. split; [reflexivity |].
    split; [repeat constructor; assumption |].
    destruct (ltb _ _); unfold I, I'; repeat split; lia.
  - do 3 eexists. split; [reflexivity |]. split; [constructor |].
    unfold I. split; [reflexivity | lia].
Qed.

Lemma step4_hoare :
  hoare ok (fun h => h = h0) (_estimatePeriod_step4 fuel)
        (fun tau h => h = h0 /\ 2 <= tau <= Z.max 2 (maxLag_of h0)).
Proof.
  unfold _estimatePeriod_step4.
  eapply hoare_bind; [apply hoare_yin_length |]. intros len.
  intros h [-> ->].
  apply (hoare_bind ok (I 2) I (fun tau h => h = h0 /\ 2 <= tau <= Z.max 2 maxLag)).
  - exact step4_first_loop.
  - intros tau. apply step4_second_loop.
  - unfold I. split; [reflexivity | lia].
Qed.
End PhaseB.

(** ** Phase C and the whole call *)

Lemma step5_run (tau : Z) (h : Heap) :
  _estimatePeriod_step5 tau h =
  (Normal (Some (Spec.refinedPeriod (_yinBuffer (this h)) tau)), h,
   [ReadYin (tau - 1); ReadYin (tau + 1); ReadYin (tau + 1); ReadYin tau;
    ReadYin (tau - 1)]).
Proof. reflexivity. Qed.

Lemma readonly_pitch_of_period (fuel : nat) : readonly (pitch_of_period fuel).
Proof.
  unfold pitch_of_period.
  apply readonly_bind; [apply readonly_estimatePeriod |].
  intros [p |]; readonly_steps.
Qed.

Lemma getPitch_rejected (fuel : nat) (h : Heap) :
  accepts h = false ->
  getPitch fuel h = (Throw (TypeError "Incorrect buffer size"), h, []).
Proof.
  intros H. unfold getPitch, bind, data_length, get_bufferLength.
  unfold accepts in H. rewrite H. reflexivity.
Qed.

Lemma getPitch_accepted (fuel : nat) (h : Heap) :
  accepts h = true ->
  exists t,
    getPitch fuel h =
    (result (pitch_of_period fuel (after_asf h)),
     heap_of (pitch_of_period fuel (after_asf h)),
     t ++ trace_of (pitch_of_period fuel (after_asf h))).
Proof.
  intros H. destruct (_asf_run h) as [t E].
  exists t.
  change (getPitch fuel h) with
    (match data_length h with
     | (Normal n, h1, t1) =>
         match (bufferLength <- get_bufferLength ;;
                if negb (strict_eq (of_Z n) bufferLength)
                then throw (TypeError "Incorrect buffer size")
                else _asf ;; pitch_of_period fuel) h1 with
         | (r, h2, t2) => (r, h2, t1 ++ t2)
         end
     | (Throw e, h1, t1) => (Throw e, h1, t1)
     | (Timeout, h1, t1) => (Timeout, h1, t1)
     end).
  unfold data_length, get_bufferLength, bind at 1.
  unfold accepts in H. rewrite H.
  change (negb true) with false. cbv iota.
  unfold bind. rewrite E. fold (after_asf h).
  destruct (pitch_of_period fuel (after_asf h)) as [[r h2] t2]. reflexivity.
Qed.

Lemma getPitch_heap (fuel : nat) (h : Heap) :
  heap_of (getPitch fuel h) = if accepts h then after_asf h else h.
Proof.
  destruct (accepts h) eqn:H.
  - destruct (getPitch_accepted fuel h H) as [t ->].
    apply readonly_pitch_of_period.
  - now rewrite getPitch_rejected.
Qed.

Lemma getPitch_result (fuel : nat) (h : Heap) :
  accepts h = true ->
  result (getPitch fuel h) = result (pitch_of_period fuel (after_asf h)).
Proof.
  intros H. now destruct (getPitch_accepted fuel h H) as [t ->].
Qed.

Lemma after_asf_idem (h : Heap) : after_asf (after_asf h) = after_asf h.
Proof.
  unfold after_asf, with_buffer. simpl. now rewrite asf_buffer_length.
Qed.

Lemma accepts_after_asf (h : Heap) : accepts (after_asf h) = accepts h.
Proof. reflexivity. Qed.

(** ** The closed form against the specification's formula *)

Lemma rd_sample (d : list number) (i : nat) :
  (i < length d)%nat -> rd d i = Spec.sample d i.
Proof.
  intros H. unfold rd, Spec.sample.
  now rewrite (nth_error_nth' d zero H).
Qed.

Lemma asf_sum_spec (d : list number) (L tau : nat) :
  length d = (2 * L)%nat -> (tau <= L)%nat ->
  asf_sum d L tau = Spec.sum_tau d L tau.
Proof.
  intros Hd Htau. unfold asf_sum, Spec.sum_tau. f_equal.
  apply map_ext_in. intros i Hi. apply in_seq in Hi.
  unfold asf_sq, Spec.sq_diff. now rewrite !rd_sample by lia.
Qed.

Lemma asf_total_spec (d : list number) (L tau : nat) :
  length d = (2 * L)%nat -> (tau <= L)%nat ->
  asf_total d L tau = Spec.total_tau d L tau.
Proof.
  intros Hd Htau. unfold asf_total, Spec.total_tau. f_equal.
  apply map_ext_in. intros k Hk. apply in_seq in Hk.
  apply asf_sum_spec; [assumption | lia].
Qed.

Lemma asf_entry_spec (d : list number) (L tau : nat) :
  length d = (2 * L)%nat -> (1 <= tau <= L)%nat ->
  asf_entry d L tau = fround (Spec.cmndf d L tau).
Proof.
  intros Hd Htau. destruct tau as [| tau]; [lia |].
  unfold asf_entry, Spec.cmndf.
  now rewrite asf_sum_spec, asf_total_spec by (assumption || lia).
Qed.

Lemma fround_one : fround one = one.
Proof. reflexivity. Qed.

Example constructor_8_8000 :
  constructor (of_Z 8) (of_Z 8000) VUndefined = Normal yin8.
Proof. vm_compute. reflexivity. Qed.

Example constructor_4_8000 :
  constructor (of_Z 4) (of_Z 8000) VUndefined = Normal yin4.
Proof. vm_compute. reflexivity. Qed.

Example default_threshold_is_a_fifth :
  DEFAULT_THRESHOLD = div (of_Z 1) (of_Z 5) /\
  valid_binary prec emax DEFAULT_THRESHOLD = true.
Proof. vm_compute. split; reflexivity. Qed.

(** ** Phase A *)

(** C1, as it is stated, is false: the scratch buffer is a [Float32Array],
    so after Phase A [scratchBuffer[tau]] is the single-precision rounding
    of [sum * (tau / total)]. For [new Yin(8, 8000)] and the frame
    1,0,1,0,1,1,0,0 the value at lag 2 is 0.4 in double precision and the
    buffer holds the binary32 number next to it. *)
Lemma asf_unrounded_counterexample :
  accepts pulses8 = true /\
  Spec.cmndf (data pulses8) 4 2 = S754_finite false 7205759403792794 (-54) /\
  array_get (_yinBuffer (this (heap_of (_asf pulses8)))) 2
    = Some (S754_finite false 7205759511166976 (-54)) /\
  array_get (_yinBuffer (this (heap_of (_asf pulses8)))) 2
    <> Some (Spec.cmndf (data pulses8) 4 2).
Proof. vm_compute. repeat split; congruence. Qed.

(** C1, amended: for a frame of length [2 * L] over a scratch buffer of
    length [L], Phase A completes and leaves, at every lag [tau] from 1 to
    [L - 1], the single-precision rounding of [sum_tau * (tau / total_tau)],
    with [sum_tau] the sum over [i] from 0 to [L - 1] of
    [(samples[i] - samples[i + tau])^2] and [total_tau] the cumulative sum of
    [sum_1 .. sum_tau]. *)
Theorem asf_stores_rounded_cmndf (h : Heap) (L tau : nat) :
  length (_yinBuffer (this h)) = L ->
  length (data h) = (2 * L)%nat ->
  (1 <= tau < L)%nat ->
  exists h' t,
    _asf h = (Normal tt, h', t) /\
    array_get (_yinBuffer (this h')) (Z.of_nat tau)
      = Some (fround (Spec.cmndf (data h) L tau)).
Proof.
  intros HL Hd Htau.
  destruct (_asf_run h) as [t E].
  eexists _, t. split; [exact E |].
  rewrite HL. simpl. rewrite array_get_of_nat.
  rewrite asf_buffer_nth by lia.
  now rewrite asf_entry_spec by (assumption || lia).
Qed.

Lemma asf_stores_rounded_cmndf_witness :
  length (_yinBuffer (this pulses8)) = 4%nat /\
  length (data pulses8) = (2 * 4)%nat /\
  (1 <= 2 < 4)%nat /\
  exists h' t,
    _asf pulses8 = (Normal tt, h', t) /\
    array_get (_yinBuffer (this h')) (Z.of_nat 2)
      = Some (fround (Spec.cmndf (data pulses8) 4 2)).
Proof.
  split; [reflexivity |]. split; [reflexivity |]. split; [lia |].
  apply (asf_stores_rounded_cmndf pulses8 4 2); [reflexivity | reflexivity | lia].
Defined.

(** C5, as it is stated, is false: [new Yin(0, 8000)] succeeds, its scratch
    buffer is empty, and it accepts the empty frame; the store
    [this._yinBuffer[0] = 1] of Phase A is dropped and [scratchBuffer[0]]
    is [undefined] afterwards. *)
Lemma asf_empty_buffer_counterexample :
  constructor (of_Z 0) (of_Z 8000) VUndefined = Normal yin0 /\
  accepts empty0 = true /\
  result (_asf empty0) = Normal tt /\
  array_get (_yinBuffer (this (heap_of (_asf empty0)))) 0 = None /\
  array_get (_yinBuffer (this (heap_of (_asf empty0)))) 0 <> Some one.
Proof.
  split; [vm_compute; reflexivity |].
  split; [vm_compute; reflexivity |].
  split; [vm_compute; reflexivity |].
  split; [vm_compute; reflexivity |].
  vm_compute. discriminate.
Qed.

(** C5, amended: whenever the scratch buffer has an element 0, that is for
    every frame length of at least 2, Phase A completes and leaves
    [scratchBuffer[0]] equal to 1, whatever the samples are. *)
Theorem asf_sets_lag_zero_to_one (h : Heap) :
  (0 < length (_yinBuffer (this h)))%nat ->
  exists h' t,
    _asf h = (Normal tt, h', t) /\
    array_get (_yinBuffer (this h')) 0 = Some one.
Proof.
  intros HL.
  destruct (_asf_run h) as [t E].
  eexists _, t. split; [exact E |].
  simpl. change 0 with (Z.of_nat 0). rewrite array_get_of_nat.
  now rewrite asf_buffer_nth by exact HL.
Qed.

Lemma asf_sets_lag_zero_to_one_witness :
  (0 < length (_yinBuffer (this click8)))%nat /\
  exists h' t,
    _asf click8 = (Normal tt, h', t) /\
    array_get (_yinBuffer (this h')) 0 = Some one.
Proof.
  split; [simpl; lia |].
  apply (asf_sets_lag_zero_to_one click8). simpl. lia.
Defined.

(** ** Phase B *)

Lemma step4_accesses_any (maxLag : Z) : step4_accesses any_access maxLag.
Proof. intros tau _. split; exact I. Qed.

Lemma step4_run (fuel : nat) (h : Heap) :
  (length (_yinBuffer (this h)) < fuel)%nat ->
  exists tau t,
    _estimatePeriod_step4 fuel h = (Normal tau, h, t) /\
    2 <= tau <= Z.max 2 (maxLag_of h).
Proof.
  intros Hfuel.
  destruct (step4_hoare any_access h fuel Hfuel (step4_accesses_any _) h eq_refl)
    as (tau & h' & t & E & _ & -> & Ht).
  now exists tau, t.
Qed.

(** C3, as it is stated, is false: for [new Yin(4, 8000)] (the frame length
    of the specification's own scenario) the scratch buffer has two
    elements, [maxLag] is 1, and Phase B stops at the lag 2 it starts from,
    which is outside the empty range from 2 to [maxLag]. *)
Lemma step4_range_counterexample :
  accepts silent4 = true /\
  maxLag_of (heap_of (_asf silent4)) = 1 /\
  result (_estimatePeriod_step4 4 (heap_of (_asf silent4))) = Normal 2 /\
  ~ (2 <= 2 <= maxLag_of (heap_of (_asf silent4))).
Proof.
  repeat split; try (vm_compute; reflexivity).
  vm_compute. intros [_ H]. apply H. reflexivity.
Qed.

(** C3, amended: Phase B always terminates (any fuel above the length [L]
    of the scratch buffer is enough), leaves the heap as it was, and stops
    at a lag [tau] with [2 <= tau <= max 2 maxLag], [maxLag = L - 1]; the
    lag is in the range from 2 to [maxLag] whenever [L >= 3], that is for
    every frame length of at least 6. *)
Theorem step4_terminates_in_range (fuel : nat) (h : Heap) :
  (length (_yinBuffer (this h)) < fuel)%nat ->
  exists tau t,
    _estimatePeriod_step4 fuel h = (Normal tau, h, t) /\
    2 <= tau <= Z.max 2 (maxLag_of h) /\
    ((3 <= length (_yinBuffer (this h)))%nat -> 2 <= tau <= maxLag_of h).
Proof.
  intros Hfuel.
  destruct (step4_run fuel h Hfuel) as (tau & t & E & Ht).
  exists tau, t. repeat split; try tauto; unfold maxLag_of in *; lia.
Qed.

Lemma step4_terminates_in_range_witness :
  (length (_yinBuffer (this (heap_of (_asf click8)))) < 5)%nat /\
  exists tau t,
    _estimatePeriod_step4 5 (heap_of (_asf click8))
      = (Normal tau, heap_of (_asf click8), t) /\
    2 <= tau <= Z.max 2 (maxLag_of (heap_of (_asf click8))) /\
    ((3 <= length (_yinBuffer (this (heap_of (_asf click8)))))%nat ->
     2 <= tau <= maxLag_of (heap_of (_asf click8))).
Proof.
  split; [vm_compute; lia |].
  apply (step4_terminates_in_range 5 (heap_of (_asf click8))).
  vm_compute. lia.
Defined.

(** ** Phase C and the result *)

Lemma estimatePeriod_run (fuel : nat) (h : Heap) :
  (length (_yinBuffer (this h)) < fuel)%nat ->
  exists tau t4 t,
    _estimatePeriod_step4 fuel h = (Normal tau, h, t4) /\
    _estimatePeriod fuel h =
      (Normal (Some (Spec.refinedPeriod (_yinBuffer (this h)) tau)), h, t).
Proof.
  intros Hfuel.
  destruct (step4_run fuel h Hfuel) as (tau & t4 & E & _).
  exists tau, t4. eexists. split; [exact E |].
  unfold _estimatePeriod, bind. rewrite E, step5_run. reflexivity.
Qed.

(** [_estimatePeriod] never returns [null]: the branch of [getPitch] that
    returns -1 is never taken. *)
Lemma estimatePeriod_never_null (fuel : nat) (h : Heap) :
  (length (_yinBuffer (this h)) < fuel)%nat ->
  result (_estimatePeriod fuel h) <> Normal None.
Proof.
  intros Hfuel.
  destruct (estimatePeriod_run fuel h Hfuel) as (tau & t4 & t & _ & E).
  rewrite E. discriminate.
Qed.

(** C4: for an accepted frame, with [tau] the lag Phase B stops at on the
    buffer Phase A leaves, [_estimatePeriod] returns [tau] when
    [den = scratchBuffer[tau+1] - 2*scratchBuffer[tau] + scratchBuffer[tau-1]]
    is 0 and [tau + delta / (2*den)] otherwise, with
    [delta = scratchBuffer[tau-1] - scratchBuffer[tau+1]], and [getPitch]
    returns [sampleRate] divided by that period. *)
Theorem getPitch_is_sampleRate_over_refined_period (fuel : nat) (h : Heap) :
  accepts h = true ->
  (length (_yinBuffer (this h)) < fuel)%nat ->
  exists hA tA tau t4,
    _asf h = (Normal tt, hA, tA) /\
    _estimatePeriod_step4 fuel hA = (Normal tau, hA, t4) /\
    let scratchBuffer := _yinBuffer (this hA) in
    let delta := sub (Spec.sb scratchBuffer (tau - 1)) (Spec.sb scratchBuffer (tau + 1)) in
    let den := add (sub (Spec.sb scratchBuffer (tau + 1))
                        (mul two (Spec.sb scratchBuffer tau)))
                   (Spec.sb scratchBuffer (tau - 1)) in
    let refinedPeriod :=
      if strict_eq den zero then of_Z tau
      else add (of_Z tau) (div delta (mul two den)) in
    result (_estimatePeriod fuel hA) = Normal (Some refinedPeriod) /\
    result (getPitch fuel h) = Normal (div (_sampleRate (this h)) refinedPeriod).
Proof.
  intros Hacc Hfuel.
  assert (Hfuel' : (length (_yinBuffer (this (after_asf h))) < fuel)%nat).
  { simpl. now rewrite asf_buffer_length. }
  destruct (_asf_run h) as [tA EA].
  destruct (estimatePeriod_run fuel (after_asf h) Hfuel') as (tau & t4 & t & E4 & E).
  exists (after_asf h), tA, tau, t4.
  split; [exact EA |]. split; [exact E4 |].
  cbv zeta. split.
  - rewrite E. reflexivity.
  - rewrite (getPitch_result fuel h Hacc).
    unfold pitch_of_period, bind. rewrite E. reflexivity.
Qed.

Lemma getPitch_is_sampleRate_over_refined_period_witness :
  accepts pulses8 = true /\
  (length (_yinBuffer (this pulses8)) < 5)%nat /\
  exists hA tA tau t4,
    _asf pulses8 = (Normal tt, hA, tA) /\
    _estimatePeriod_step4 5 hA = (Normal tau, hA, t4) /\
    let scratchBuffer := _yinBuffer (this hA) in
    let delta := sub (Spec.sb scratchBuffer (tau - 1)) (Spec.sb scratchBuffer (tau + 1)) in
    let den := add (sub (Spec.sb scratchBuffer (tau + 1))
                        (mul two (Spec.sb scratchBuffer tau)))
                   (Spec.sb scratchBuffer (tau - 1)) in
    let refinedPeriod :=
      if strict_eq den zero then of_Z tau
      else add (of_Z tau) (div delta (mul two den)) in
    result (_estimatePeriod 5 hA) = Normal (Some refinedPeriod) /\
    result (getPitch 5 pulses8) = Normal (div (_sampleRate (this pulses8)) refinedPeriod).
Proof.
  split; [vm_compute; reflexivity |]. split; [simpl; lia |].
  apply (getPitch_is_sampleRate_over_refined_period 5 pulses8);
    [vm_compute; reflexivity | simpl; lia].
Defined.

(** ** The frame of a call *)

(** C9: a call of [getPitch], whatever its outcome, leaves the caller's
    array and the three configuration fields as they were; only the
    contents of the scratch buffer change. *)
Theorem getPitch_only_writes_scratch_buffer (fuel : nat) (h : Heap) :
  let h' := heap_of (getPitch fuel h) in
  data h' = data h /\
  _bufferLength (this h') = _bufferLength (this h) /\
  _sampleRate (this h') = _sampleRate (this h) /\
  _threshold (this h') = _threshold (this h) /\
  length (_yinBuffer (this h')) = length (_yinBuffer (this h)).
Proof.
  cbv zeta. rewrite getPitch_heap.
  destruct (accepts h); [| repeat split].
  repeat split. simpl. apply asf_buffer_length.
Qed.

(** X16: the outcome of a call does not depend on what the scratch buffer
    held before it. *)
Lemma getPitch_ignores_scratch_contents (fuel : nat) (h : Heap) (b : list number) :
  length b = length (_yinBuffer (this h)) ->
  result (getPitch fuel (with_buffer h b)) = result (getPitch fuel h).
Proof.
  intros Hb.
  assert (Ha : after_asf (with_buffer h b) = after_asf h).
  { unfold after_asf, with_buffer. simpl. now rewrite Hb. }
  destruct (accepts h) eqn:E.
  - rewrite (getPitch_result fuel (with_buffer h b) E).
    now rewrite (getPitch_result fuel h E), Ha.
  - rewrite (getPitch_rejected fuel (with_buffer h b) E).
    now rewrite (getPitch_rejected fuel h E).
Qed.

(** C8: calling [getPitch] again on the heap the first call leaves, with
    the same instance and the same frame, gives the same outcome: the scratch
    buffer carries nothing from one call to the next. *)
Theorem getPitch_twice_same_result (fuel : nat) (h : Heap) :
  result (getPitch fuel (heap_of (getPitch fuel h))) = result (getPitch fuel h).
Proof.
  rewrite getPitch_heap.
  destruct (accepts h) eqn:Hacc; [| reflexivity].
  rewrite !getPitch_result by (rewrite ?accepts_after_asf; exact Hacc).
  now rewrite after_asf_idem.
Qed.

(** ** The result on frames without a pitch *)

(** C2 fails on the code. [new Yin(8, 8000)] on the all-zero frame: every
    sum is 0, so Phase A stores [0 * (tau / 0)], which is NaN, at every lag
    from 1 on; Phase B stays at lag 2; the interpolation gives NaN and
    [getPitch] returns [8000 / NaN], which is NaN: neither a positive
    frequency nor -1. The same happens for the 4-sample frame of the
    specification's scenario. *)
Theorem getPitch_silent_frame_returns_NaN :
  constructor (of_Z 8) (of_Z 8000) VUndefined = Normal yin8 /\
  accepts silent8 = true /\
  result (getPitch 5 silent8) = Normal NaN /\
  result (getPitch 5 silent4) = Normal NaN /\
  strict_eq NaN (of_Z (-1)) = false /\
  ltb zero NaN = false.
Proof. vm_compute. repeat split; reflexivity. Qed.

(** ** The constructor *)

Lemma ToInt32_parity (x : number) (n : Z) :
  trunc x = Some n -> Z.odd (ToInt32 x) = Z.odd n.
Proof.
  intros H. unfold ToInt32. rewrite H. cbv zeta.
  assert (Hm : Z.odd (n mod 2 ^ 32) = Z.odd n).
  { rewrite Z.mod_eq by lia.
    rewrite Z.odd_sub, Z.odd_mul.
    change (Z.odd (2 ^ 32)) with false. simpl. now rewrite xorb_false_r. }
  destruct (2 ^ 31 <=? n mod 2 ^ 32); [| exact Hm].
  rewrite Z.odd_sub, Hm. change (Z.odd (2 ^ 32)) with false.
  now rewrite xorb_false_r.
Qed.

Lemma integer_value_trunc (x : number) (n : Z) :
  integer_value x = Some n -> trunc x = Some n.
Proof.
  destruct x as [s | s | | s m e]; unfold integer_value, trunc; try congruence.
  destruct (0 <=? e); [congruence |].
  destruct (Z.land (Z.pos m) (Z.ones (- e)) =? 0); congruence.
Qed.

Lemma land_1_odd (k : Z) : negb (Z.land k 1 =? 0) = Z.odd k.
Proof.
  change 1 with (Z.ones 1). rewrite Z.land_ones by lia.
  change (2 ^ 1) with 2. rewrite Zmod_odd.
  now destruct (Z.odd k).
Qed.

(** C6, as it is stated, is false: zero is not a positive even integer,
    and [new Yin(0, 8000)] succeeds, with an empty scratch buffer. *)
Lemma constructor_zero_length_counterexample :
  constructor (of_Z 0) (of_Z 8000) VUndefined
  = Normal (mkYin zero (of_Z 8000) DEFAULT_THRESHOLD []).
Proof. vm_compute. reflexivity. Qed.

(** C6, amended: for an integer [bufferLength] the constructor fails on the
    frame-length check, with the TypeError of that check, exactly when the
    integer is odd; every even integer, zero and the negative ones included,
    passes the check. *)
Theorem constructor_rejects_odd_bufferLength
        (bufferLength sampleRate : number) (threshold : value) (n : Z) :
  integer_value bufferLength = Some n ->
  constructor bufferLength sampleRate threshold
    = Throw (TypeError "The buffer length must be a multiple of two")
  <-> Z.odd n = true.
Proof.
  intros Hn. apply integer_value_trunc in Hn.
  unfold constructor.
  rewrite land_1_odd, (ToInt32_parity _ _ Hn).
  destruct (Z.odd n).
  - split; reflexivity.
  - split; [| discriminate]. simpl.
    destruct (leb sampleRate zero || negb (isSafeInteger sampleRate));
      [discriminate |].
    destruct threshold as [| | b | t | s |]; try discriminate.
    + destruct (leb DEFAULT_THRESHOLD zero || geb DEFAULT_THRESHOLD one);
        [discriminate |].
      destruct (Float32Array_new _); discriminate.
    + destruct (leb t zero || geb t one); [discriminate |].
      destruct (Float32Array_new _); discriminate.
Qed.

Lemma constructor_rejects_odd_bufferLength_witness :
  integer_value (of_Z 3) = Some 3 /\
  (constructor (of_Z 3) (of_Z 8000) VUndefined
     = Throw (TypeError "The buffer length must be a multiple of two")
   <-> Z.odd 3 = true).
Proof.
  split; [reflexivity |].
  apply (constructor_rejects_odd_bufferLength (of_Z 3) (of_Z 8000) VUndefined 3).
  reflexivity.
Defined.

(** Negative even lengths pass the frame-length check and fail when the
    scratch buffer is allocated; a length with a fractional part passes
    when its integer part is even. *)
Example constructor_negative_even :
  constructor (of_Z (-2)) (of_Z 8000) VUndefined
  = Throw (RangeError "Invalid typed array length").
Proof. vm_compute. reflexivity. Qed.

Example constructor_two_and_a_half :
  constructor (S754_finite false 5 (-1)) (of_Z 8000) VUndefined
  = Normal (mkYin (S754_finite false 5 (-1)) (of_Z 8000) DEFAULT_THRESHOLD [zero]).
Proof. vm_compute. reflexivity. Qed.

(** C7 fails on the code: NaN is a number, and both [NaN <= 0] and
    [NaN >= 1] are false, so [new Yin(8, 8000, NaN)] succeeds. *)
Theorem constructor_accepts_NaN_threshold :
  constructor (of_Z 8) (of_Z 8000) (VNumber NaN)
  = Normal (mkYin (of_Z 8) (of_Z 8000) NaN (repeat zero 4)).
Proof. vm_compute. reflexivity. Qed.

Lemma SFcompare_antisym (x y : number) :
  SFcompare y x = option_map CompOpp (SFcompare x y).
Proof.
  destruct x as [sx | sx | | sx mx ex], y as [sy | sy | | sy my ey]; simpl;
    try reflexivity;
    try (destruct sx; reflexivity); try (destruct sy; reflexivity);
    try (destruct sx, sy; reflexivity).
  destruct sx, sy; try reflexivity.
  - rewrite (Z.compare_antisym ex ey).
    destruct (ex ?= ey); simpl; try reflexivity.
    f_equal. rewrite (ZC4 my mx), CompOpp_involutive. reflexivity.
  - rewrite (Z.compare_antisym ex ey).
    destruct (ex ?= ey); simpl; try reflexivity.
    f_equal. apply ZC4.
Qed.

(** What a successful construction tells: the fields are the arguments, the
    scratch buffer is [new Float32Array(bufferLength / 2)], and the three
    tests were passed. *)
Lemma constructor_normal (bufferLength sampleRate : number) (threshold : value)
      (y : Yin) :
  constructor bufferLength sampleRate threshold = Normal y ->
  _bufferLength y = bufferLength /\
  _sampleRate y = sampleRate /\
  Float32Array_new (div bufferLength two) = Some (_yinBuffer y) /\
  Z.odd (ToInt32 bufferLength) = false /\
  leb sampleRate zero = false /\
  isSafeInteger sampleRate = true /\
  (threshold = VNumber (_threshold y) \/
   threshold = VUndefined /\ _threshold y = DEFAULT_THRESHOLD) /\
  leb (_threshold y) zero = false /\
  geb (_threshold y) one = false.
Proof.
  unfold constructor. rewrite land_1_odd.
  destruct (Z.odd (ToInt32 bufferLength)); [discriminate |].
  destruct (leb sampleRate zero) eqn:Hs; [discriminate |].
  destruct (isSafeInteger sampleRate) eqn:Hi; [| discriminate]. simpl.
  assert (H : forall t,
             (if leb t zero || geb t one
              then Throw (TypeError "The threshold must be a positive number between 0 and 1")
              else match Float32Array_new (div bufferLength two) with
                   | Some buf => Normal (mkYin bufferLength sampleRate t buf)
                   | None => Throw (RangeError "Invalid typed array length")
                   end) = Normal y ->
             _threshold y = t /\
             _bufferLength y = bufferLength /\ _sampleRate y = sampleRate /\
             Float32Array_new (div bufferLength two) = Some (_yinBuffer y) /\
             leb t zero = false /\ geb t one = false).
  { intros t. destruct (leb t zero); [discriminate |].
    destruct (geb t one); [discriminate |]. simpl.
    destruct (Float32Array_new (div bufferLength two)); [| discriminate].
    intros [= <-]. repeat split. }
  destruct threshold as [| | b | t | str |]; try discriminate; intros E;
    apply H in E; destruct E as (Ht & Hb & Hr & Hf & H0 & H1).
  - repeat split; try assumption; try (rewrite Ht; assumption).
    right. now split.
  - repeat split; try assumption; try (rewrite Ht; assumption).
    left. now rewrite Ht.
Qed.

(** X14: a threshold the constructor accepts is strictly between 0 and 1,
    or it is NaN. *)
Lemma constructor_threshold_accepted (bufferLength sampleRate : number)
      (threshold : value) (y : Yin) :
  constructor bufferLength sampleRate threshold = Normal y ->
  _threshold y = NaN \/
  ltb zero (_threshold y) = true /\ ltb (_threshold y) one = true.
Proof.
  intros E. apply constructor_normal in E.
  destruct E as (_ & _ & _ & _ & _ & _ & _ & H0 & H1).
  destruct (_threshold y) as [s | s | | s m e].
  - discriminate H0.
  - destruct s; [discriminate H0 | discriminate H1].
  - now left.
  - right. unfold leb, geb, ltb, SFleb, SFltb in *.
    rewrite (SFcompare_antisym one (S754_finite s m e)).
    destruct s; [discriminate H0 |]. split; [reflexivity |].
    destruct (SFcompare one (S754_finite false m e)) as [[| |] |] eqn:C;
      try discriminate H1; try reflexivity.
    discriminate C.
Qed.

Lemma typeof_number (v : value) :
  typeof v = "number"%string <-> exists t, v = VNumber t.
Proof.
  split.
  - destruct v; simpl; try discriminate. intros _. now eexists.
  - intros [t ->]. reflexivity.
Qed.

(** X15: whatever the other two arguments, a threshold that is not a
    number, or a number that is [<= 0] or [>= 1], makes the constructor throw
    a TypeError. *)
Lemma constructor_rejects_threshold
      (bufferLength sampleRate : number) (threshold : value) :
  match threshold with
  | VUndefined => False
  | VNumber t => leb t zero = true \/ geb t one = true
  | _ => True
  end ->
  exists msg, constructor bufferLength sampleRate threshold = Throw (TypeError msg).
Proof.
  intros H. unfold constructor.
  destruct (negb _); [eexists; reflexivity |].
  destruct (_ || _); [eexists; reflexivity |].
  destruct threshold as [| | b | t | s |]; try (eexists; reflexivity).
  - contradiction.
  - assert (E : leb t zero || geb t one = true) by (apply orb_true_iff; exact H).
    rewrite E. eexists; reflexivity.
Qed.

(** ** Array accesses *)

(** C10 fails on the code: Phase B may stop at [maxLag = L - 1], and Phase C
    then reads [scratchBuffer[tau + 1]], one past the end. For
    [new Yin(8, 8000)] on the frame 1,0,0,0,0,0,0,0 the buffer after Phase A
    is 1,1,1,1, Phase B stops at lag 3, Phase C reads index 4 of a
    4-element array, which is [undefined], and the call returns NaN. *)
Theorem getPitch_reads_past_scratch_buffer :
  constructor (of_Z 8) (of_Z 8000) VUndefined = Normal yin8 /\
  accepts click8 = true /\
  length (_yinBuffer (this click8)) = 4%nat /\
  result (_estimatePeriod_step4 5 (heap_of (_asf click8))) = Normal 3 /\
  In (ReadYin 4) (trace_of (getPitch 5 click8)) /\
  array_get (_yinBuffer (this (heap_of (getPitch 5 click8)))) 4 = None /\
  result (getPitch 5 click8) = Normal NaN.
Proof.
  split; [vm_compute; reflexivity |].
  split; [vm_compute; reflexivity |].
  split; [reflexivity |].
  split; [vm_compute; reflexivity |].
  split; [apply (nth_error_In _ 30); vm_compute; reflexivity |].
  split; vm_compute; reflexivity.
Qed.

Section Accesses.
Variable ok : access -> Prop.
Variable h0 : Heap.
Variable fuel : nat.

Let L : nat := length (_yinBuffer (this h0)).

Hypothesis Hacc : accepts h0 = true.
Hypothesis Hfuel : (L < fuel)%nat.
Hypothesis HokA : asf_accesses ok L.
Hypothesis HokB : step4_accesses ok (Z.of_nat L - 1).
Hypothesis HokC :
  forall tau, 2 <= tau <= Z.max 2 (Z.of_nat L - 1) ->
    ok (ReadYin (tau - 1)) /\ ok (ReadYin tau) /\ ok (ReadYin (tau + 1)).

Lemma estimatePeriod_hoare :
  hoare ok (fun h => h = after_asf h0) (_estimatePeriod fuel)
        (fun p h => h = after_asf h0 /\ p <> None).
Proof.
  assert (HL : length (_yinBuffer (this (after_asf h0))) = L).
  { simpl. apply asf_buffer_length. }
  unfold _estimatePeriod.
  eapply hoare_bind.
  - apply step4_hoare.
    + rewrite HL. exact Hfuel.
    + unfold maxLag_of. rewrite HL. exact HokB.
  - intros tau h [-> Ht]. unfold maxLag_of in Ht. rewrite HL in Ht.
    destruct (HokC tau Ht) as (H1 & H2 & H3).
    rewrite step5_run. do 3 eexists. split; [reflexivity |].
    split; [repeat constructor; assumption |].
    split; [reflexivity | discriminate].
Qed.

(** An accepted call completes, and all its accesses are among those the
    three phases are allowed. *)
Lemma getPitch_hoare :
  hoare ok (fun h => h = h0) (getPitch fuel) (fun _ h => h = after_asf h0).
Proof.
  unfold getPitch.
  intros h ->.
  destruct (_asf_hoare ok h0 HokA h0 eq_refl) as ([] & hA & tA & EA & FA & ->).
  destruct (estimatePeriod_hoare _ eq_refl) as (p & hB & tB & EB & FB & -> & Hp).
  destruct p as [p |]; [| congruence].
  exists (div (_sampleRate (this h0)) p), (after_asf h0), ([] ++ [] ++ tA ++ tB ++ [] ++ []).
  split; [| split; [| reflexivity]].
  - unfold bind at 1 2. unfold data_length, get_bufferLength.
    unfold accepts in Hacc. rewrite Hacc.
    change (negb true) with false. cbv iota.
    unfold bind. rewrite EA. fold (after_asf h0). rewrite EB. reflexivity.
  - simpl. rewrite app_nil_r. now apply Forall_app.
Qed.
End Accesses.

(** X13: for an accepted frame of length [2 * L] over a scratch buffer of
    length [L >= 3], every array access of the call is in bounds, except
    that Phase C may read the scratch buffer at index [L]. *)
Lemma getPitch_accesses (fuel : nat) (h : Heap) (L : nat) :
  length (_yinBuffer (this h)) = L ->
  length (data h) = (2 * L)%nat ->
  accepts h = true ->
  (L < fuel)%nat ->
  (3 <= L)%nat ->
  Forall (fun a => in_bounds L a \/ a = ReadYin (Z.of_nat L))
         (trace_of (getPitch fuel h)).
Proof.
  intros HL Hd Hacc Hfuel H3. subst L.
  set (L := length (_yinBuffer (this h))) in *.
  set (ok := fun a => in_bounds L a \/ a = ReadYin (Z.of_nat L)).
  assert (HokA : asf_accesses ok L).
  { split; [left; unfold in_bounds; lia |].
    intros tau Ht. split; [left; unfold in_bounds; lia |].
    intros i Hi. split; left; unfold in_bounds; lia. }
  assert (HokB : step4_accesses ok (Z.of_nat L - 1)).
  { intros tau Ht. split; left; unfold in_bounds; lia. }
  assert (HokC : forall tau, 2 <= tau <= Z.max 2 (Z.of_nat L - 1) ->
             ok (ReadYin (tau - 1)) /\ ok (ReadYin tau) /\ ok (ReadYin (tau + 1))).
  { intros tau Ht. split; [left; unfold in_bounds; lia |]. split; [left; unfold in_bounds; lia |].
    destruct (Z.eq_dec tau (Z.of_nat L - 1)) as [-> | Hne].
    - right. f_equal. lia.
    - left. simpl. lia. }
  destruct (getPitch_hoare ok h fuel Hacc Hfuel HokA HokB HokC h eq_refl)
    as (r & h' & t & E & F & _).
  rewrite E. exact F.
Qed.

(** X12: Phases A and B alone stay in bounds, for every [L >= 1]: every
    read of the frame, every write and every read of the scratch buffer. *)
Lemma asf_and_step4_in_bounds (fuel : nat) (h : Heap) (L : nat) :
  length (_yinBuffer (this h)) = L ->
  length (data h) = (2 * L)%nat ->
  (0 < L)%nat ->
  (L < fuel)%nat ->
  Forall (in_bounds L) (trace_of ((_asf ;; _estimatePeriod_step4 fuel) h)).
Proof.
  intros HL Hd H0 Hfuel. subst L.
  set (L := length (_yinBuffer (this h))) in *.
  assert (HokA : asf_accesses (in_bounds L) L).
  { split; [unfold in_bounds; lia |].
    intros tau Ht. split; [unfold in_bounds; lia |].
    intros i Hi. split; unfold in_bounds; lia. }
  assert (HLA : length (_yinBuffer (this (after_asf h))) = L).
  { simpl. apply asf_buffer_length. }
  assert (HokB : step4_accesses (in_bounds L) (maxLag_of (after_asf h))).
  { unfold maxLag_of. rewrite HLA. intros tau Ht. split; unfold in_bounds; lia. }
  destruct (_asf_hoare (in_bounds L) h HokA h eq_refl)
    as ([] & hA & tA & EA & FA & ->).
  fold (after_asf h) in EA.
  destruct (step4_hoare (in_bounds L) (after_asf h) fuel ltac:(rewrite HLA; exact Hfuel)
              HokB _ eq_refl) as (tau & hB & tB & EB & FB & _).
  unfold bind. rewrite EA, EB. simpl. now apply Forall_app.
Qed.

(** ** What Phase B searches for *)

Section PhaseBSearch.
Variable h0 : Heap.
Variable fuel : nat.
Hypothesis Hfuel : (length (_yinBuffer (this h0)) < fuel)%nat.

Let maxLag : Z := maxLag_of h0.
Let buf (i : Z) : number := Spec.sb (_yinBuffer (this h0)) i.
Let thr : number := _threshold (this h0).
Let W (tau : Z) : nat := Z.to_nat (maxLag - tau).

(** Lags from 2 up to [tau], all at or above the threshold. *)
Let above (tau : Z) : Prop :=
  2 <= tau <= Z.max 2 maxLag /\
  forall j, 2 <= j < tau -> geb (buf j) thr = true.

(** Lags from [tau1] up to [tau], each followed by a smaller value. *)
Let descending (tau1 tau : Z) : Prop :=
  tau1 <= tau <= Z.max 2 maxLag /\
  forall j, tau1 <= j < tau -> ltb (buf (j + 1)) (buf j) = true.

Lemma search_first_loop :
  hoare any_access (fun h => h = h0)
        (while_ fuel
           (fun tau =>
              if tau <? maxLag then
                v <- yin_read tau ;;
                threshold <- get_threshold ;;
                ret (geb (ToNumber v) threshold)
              else ret false)
           (fun tau => ret (tau + 1)) 2)
        (fun tau h =>
           h = h0 /\ above tau /\ (tau < maxLag -> geb (buf tau) thr = false)).
Proof.
  pose (I := fun (tau : Z) (h : Heap) => h = h0 /\ above tau).
  pose (I' := fun (tau : Z) (h : Heap) =>
                h = h0 /\ above tau /\ tau < maxLag /\ geb (buf tau) thr = true).
  apply hoare_conseq
    with (P' := I 2)
         (Q' := fun tau h =>
                  h = h0 /\ above tau /\ (tau < maxLag -> geb (buf tau) thr = false)).
  - apply (hoare_while any_access I I' _ W).
    + intros tau h [-> Ha].
      destruct (Z.ltb_spec tau maxLag) as [Hlt | Hge].
      * do 3 eexists. split; [reflexivity |].
        split; [repeat constructor |].
        fold (Spec.sb (_yinBuffer (this h0)) tau). fold (buf tau). fold thr.
        destruct (geb (buf tau) thr) eqn:E.
        -- unfold I'. auto.
        -- auto.
      * do 3 eexists. split; [reflexivity |]. split; [constructor |].
        split; [reflexivity |]. split; [exact Ha | lia].
    + intros tau. apply hoare_ret. intros h (-> & [Hr Ha] & Hlt & Hg).
      split; [split; [reflexivity |] |].
      * split; [lia |]. intros j Hj.
        destruct (Z.eq_dec j tau) as [-> | Hne]; [exact Hg | apply Ha; lia].
      * unfold W. lia.
    + unfold W, maxLag, maxLag_of. lia.
  - intros h ->. split; [reflexivity |]. split; [lia |]. intros j Hj. lia.
  - auto.
Qed.

Lemma search_second_loop (tau1 : Z) :
  2 <= tau1 <= Z.max 2 maxLag ->
  hoare any_access (fun h => h = h0)
        (while_ fuel
           (fun tau =>
              if tau <? maxLag then
                a <- yin_read (tau + 1) ;;
                b <- yin_read tau ;;
                ret (ltb (ToNumber a) (ToNumber b))
              else ret false)
           (fun tau => ret (tau + 1)) tau1)
        (fun tau h =>
           h = h0 /\ descending tau1 tau /\
           (tau < maxLag -> ltb (buf (tau + 1)) (buf tau) = false)).
Proof.
  intros H1.
  pose (I := fun (tau : Z) (h : Heap) => h = h0 /\ descending tau1 tau).
  pose (I' := fun (tau : Z) (h : Heap) =>
                h = h0 /\ descending tau1 tau /\ tau < maxLag /\
                ltb (buf (tau + 1)) (buf tau) = true).
  apply hoare_conseq
    with (P' := I tau1)
         (Q' := fun tau h =>
                  h = h0 /\ descending tau1 tau /\
                  (tau < maxLag -> ltb (buf (tau + 1)) (buf tau) = false)).
  - apply (hoare_while any_access I I' _ W).
    + intros tau h [-> Ha].
      destruct (Z.ltb_spec tau maxLag) as [Hlt | Hge].
      * do 3 eexists. split; [reflexivity |].
        split; [repeat constructor |].
        fold (Spec.sb (_yinBuffer (this h0)) (tau + 1)).
        fold (Spec.sb (_yinBuffer (this h0)) tau).
        fold (buf (tau + 1)). fold (buf tau).
        destruct (ltb (buf (tau + 1)) (buf tau)) eqn:E.
        -- unfold I'. auto.
        -- auto.
      * do 3 eexists. split; [reflexivity |]. split; [constructor |].
        split; [reflexivity |]. split; [exact Ha | lia].
    + intros tau. apply hoare_ret. intros h (-> & [Hr Ha] & Hlt & Hg).
      split; [split; [reflexivity |] |].
      * split; [lia |]. intros j Hj.
        destruct (Z.eq_dec j tau) as [-> | Hne]; [exact Hg | apply Ha; lia].
      * unfold W. lia.
    + unfold W, maxLag, maxLag_of. lia.
  - intros h ->. split; [reflexivity |]. split; [lia |]. intros j Hj. lia.
  - auto.
Qed.

Lemma step4_search_hoare :
  hoare any_access (fun h => h = h0) (_estimatePeriod_step4 fuel)
        (fun tau h =>
           h = h0 /\
           exists tau1,
             above tau1 /\ (tau1 < maxLag -> geb (buf tau1) thr = false) /\
             descending tau1 tau /\
             (tau < maxLag -> ltb (buf (tau + 1)) (buf tau) = false)).
Proof.
  unfold _estimatePeriod_step4.
  eapply hoare_bind; [apply hoare_yin_length |]. intros len.
  intros h [-> ->].
  apply (hoare_bind any_access (fun h => h = h0)
           (fun tau1 h =>
              h = h0 /\ above tau1 /\ (tau1 < maxLag -> geb (buf tau1) thr = false))
           (fun tau h =>
              h = h0 /\
              exists tau1,
                above tau1 /\ (tau1 < maxLag -> geb (buf tau1) thr = false) /\
                descending tau1 tau /\
                (tau < maxLag -> ltb (buf (tau + 1)) (buf tau) = false))).
  - exact search_first_loop.
  - intros tau1 h (-> & Ha & Hx).
    destruct (search_second_loop tau1 (proj1 Ha) h0 eq_refl)
      as (tau & h2 & t2 & E2 & F2 & -> & Hd & Hy).
    exists tau, h0, t2. split; [exact E2 |]. split; [exact F2 |].
    split; [reflexivity |]. exists tau1. auto.
  - reflexivity.
Qed.
End PhaseBSearch.

(** X1: Phase B, on any heap, returns the lag [tau] found as follows:
    [tau1] is the first lag from 2 on that is not at or above the threshold
    (or the last lag the guard [tau < maxLag] lets it reach), and [tau] ends
    the strictly descending run of buffer values that starts at [tau1]. *)
Theorem step4_finds_first_dip (fuel : nat) (h : Heap) :
  (length (_yinBuffer (this h)) < fuel)%nat ->
  let buf := Spec.sb (_yinBuffer (this h)) in
  exists tau1 tau t,
    _estimatePeriod_step4 fuel h = (Normal tau, h, t) /\
    2 <= tau1 <= tau /\ tau <= Z.max 2 (maxLag_of h) /\
    (forall j, 2 <= j < tau1 -> geb (buf j) (_threshold (this h)) = true) /\
    (tau1 < maxLag_of h -> geb (buf tau1) (_threshold (this h)) = false) /\
    (forall j, tau1 <= j < tau -> ltb (buf (j + 1)) (buf j) = true) /\
    (tau < maxLag_of h -> ltb (buf (tau + 1)) (buf tau) = false).
Proof.
  intros Hfuel buf.
  destruct (step4_search_hoare h fuel Hfuel h eq_refl)
    as (tau & h' & t & E & _ & -> & tau1 & [Hr Ha] & Hx & [Hr' Hd] & Hy).
  exists tau1, tau, t. repeat split; auto; lia.
Qed.

Lemma step4_finds_first_dip_witness :
  (length (_yinBuffer (this (heap_of (_asf pulses8)))) < 5)%nat /\
  let h := heap_of (_asf pulses8) in
  let buf := Spec.sb (_yinBuffer (this h)) in
  exists tau1 tau t,
    _estimatePeriod_step4 5 h = (Normal tau, h, t) /\
    2 <= tau1 <= tau /\ tau <= Z.max 2 (maxLag_of h) /\
    (forall j, 2 <= j < tau1 -> geb (buf j) (_threshold (this h)) = true) /\
    (tau1 < maxLag_of h -> geb (buf tau1) (_threshold (this h)) = false) /\
    (forall j, tau1 <= j < tau -> ltb (buf (j + 1)) (buf j) = true) /\
    (tau < maxLag_of h -> ltb (buf (tau + 1)) (buf tau) = false).
Proof.
  split; [vm_compute; lia |].
  apply (step4_finds_first_dip 5 (heap_of (_asf pulses8))). vm_compute. lia.
Defined.

(** ** NaN in the interpolation *)

Lemma sub_NaN_l (x : number) : sub NaN x = NaN.
Proof. reflexivity. Qed.

Lemma sub_NaN_r (x : number) : sub x NaN = NaN.
Proof. now destruct x. Qed.

Lemma add_NaN_l (x : number) : add NaN x = NaN.
Proof. reflexivity. Qed.

Lemma add_NaN_r (x : number) : add x NaN = NaN.
Proof. now destruct x. Qed.

Lemma mul_NaN_l (x : number) : mul NaN x = NaN.
Proof. reflexivity. Qed.

Lemma mul_NaN_r (x : number) : mul x NaN = NaN.
Proof. now destruct x. Qed.

Lemma div_NaN_l (x : number) : div NaN x = NaN.
Proof. reflexivity. Qed.

Lemma div_NaN_r (x : number) : div x NaN = NaN.
Proof. now destruct x. Qed.

Lemma strict_eq_NaN_l (x : number) : strict_eq NaN x = false.
Proof. reflexivity. Qed.

Lemma geb_NaN_l (x : number) : geb NaN x = false.
Proof. now destruct x. Qed.

Lemma ltb_NaN_r (x : number) : ltb x NaN = false.
Proof. now destruct x. Qed.

Lemma fround_NaN : fround NaN = NaN.
Proof. reflexivity. Qed.

(** A NaN (or a read outside the array) among the three values around the
    lag makes the interpolated period NaN. *)
Lemma refinedPeriod_NaN (b : list number) (tau : Z) :
  Spec.sb b (tau - 1) = NaN \/ Spec.sb b tau = NaN \/ Spec.sb b (tau + 1) = NaN ->
  Spec.refinedPeriod b tau = NaN.
Proof.
  intros H. unfold Spec.refinedPeriod.
  assert (Hden : Spec.den b tau = NaN).
  { unfold Spec.den. destruct H as [H | [H | H]]; rewrite H.
    - apply add_NaN_r.
    - now rewrite mul_NaN_r, sub_NaN_r.
    - reflexivity. }
  rewrite Hden. rewrite strict_eq_NaN_l.
  now rewrite mul_NaN_r, div_NaN_r, add_NaN_r.
Qed.

Lemma sb_outside (b : list number) (i : Z) :
  Z.of_nat (length b) <= i -> Spec.sb b i = NaN.
Proof.
  intros H. unfold Spec.sb, array_get.
  destruct (Z.ltb_spec i 0); [reflexivity |].
  assert (E : nth_error b (Z.to_nat i) = None) by (apply nth_error_None; lia).
  now rewrite E.
Qed.

Lemma getPitch_result_NaN (fuel : nat) (h : Heap) (tau : Z) :
  accepts h = true ->
  (length (_yinBuffer (this h)) < fuel)%nat ->
  result (_estimatePeriod_step4 fuel (after_asf h)) = Normal tau ->
  Spec.refinedPeriod (_yinBuffer (this (after_asf h))) tau = NaN ->
  result (getPitch fuel h) = Normal NaN.
Proof.
  intros Hacc Hfuel Htau Hnan.
  assert (Hfuel' : (length (_yinBuffer (this (after_asf h))) < fuel)%nat).
  { simpl. now rewrite asf_buffer_length. }
  destruct (estimatePeriod_run fuel (after_asf h) Hfuel') as (tau' & t4 & t & E4 & E).
  rewrite E4 in Htau. injection Htau as ->.
  rewrite (getPitch_result fuel h Hacc).
  unfold pitch_of_period, bind. rewrite E, Hnan. simpl.
  now rewrite div_NaN_r.
Qed.

Lemma heap_of_asf (h : Heap) : heap_of (_asf h) = after_asf h.
Proof. destruct (_asf_run h) as [t E]. now rewrite E. Qed.

Lemma getPitch_NaN_past_end (fuel : nat) (h : Heap) (tau : Z) :
  accepts h = true ->
  (length (_yinBuffer (this h)) < fuel)%nat ->
  result (_estimatePeriod_step4 fuel (after_asf h)) = Normal tau ->
  Z.of_nat (length (_yinBuffer (this h))) <= tau + 1 ->
  result (getPitch fuel h) = Normal NaN.
Proof.
  intros Hacc Hfuel Htau Hend.
  apply (getPitch_result_NaN fuel h tau Hacc Hfuel Htau).
  apply refinedPeriod_NaN. right. right. apply sb_outside.
  simpl. now rewrite asf_buffer_length.
Qed.

(** X2: when Phase B stops at the last lag or beyond ([tau + 1] is not an
    index of the scratch buffer), [getPitch] returns NaN. *)
Theorem getPitch_NaN_when_search_reaches_end (fuel : nat) (h : Heap) (tau : Z) :
  accepts h = true ->
  (length (_yinBuffer (this h)) < fuel)%nat ->
  result (_estimatePeriod_step4 fuel (heap_of (_asf h))) = Normal tau ->
  Z.of_nat (length (_yinBuffer (this h))) <= tau + 1 ->
  result (getPitch fuel h) = Normal NaN.
Proof.
  intros Hacc Hfuel Htau Hend. rewrite heap_of_asf in Htau.
  exact (getPitch_NaN_past_end fuel h tau Hacc Hfuel Htau Hend).
Qed.

Lemma getPitch_NaN_when_search_reaches_end_witness :
  accepts click8 = true /\
  (length (_yinBuffer (this click8)) < 5)%nat /\
  result (_estimatePeriod_step4 5 (heap_of (_asf click8))) = Normal 3 /\
  Z.of_nat (length (_yinBuffer (this click8))) <= 3 + 1 /\
  result (getPitch 5 click8) = Normal NaN.
Proof.
  split; [vm_compute; reflexivity |]. split; [simpl; lia |].
  split; [vm_compute; reflexivity |]. split; [simpl; lia |].
  apply (getPitch_NaN_when_search_reaches_end 5 click8 3);
    [vm_compute; reflexivity | simpl; lia | vm_compute; reflexivity | simpl; lia].
Defined.

(** X3: an estimator whose scratch buffer has at most three elements (a
    frame of at most six samples) returns NaN for every accepted frame. *)
Theorem getPitch_short_frame_NaN (fuel : nat) (h : Heap) :
  accepts h = true ->
  (length (_yinBuffer (this h)) <= 3)%nat ->
  (length (_yinBuffer (this h)) < fuel)%nat ->
  result (getPitch fuel h) = Normal NaN.
Proof.
  intros Hacc H3 Hfuel.
  assert (HL : length (_yinBuffer (this (after_asf h))) = length (_yinBuffer (this h))).
  { simpl. apply asf_buffer_length. }
  destruct (step4_run fuel (after_asf h) ltac:(rewrite HL; exact Hfuel))
    as (tau & t & E & Ht).
  apply (getPitch_NaN_past_end fuel h tau Hacc Hfuel).
  - rewrite E. reflexivity.
  - unfold maxLag_of in Ht. rewrite HL in Ht. lia.
Qed.

Lemma getPitch_short_frame_NaN_witness :
  accepts silent4 = true /\
  (length (_yinBuffer (this silent4)) <= 3)%nat /\
  (length (_yinBuffer (this silent4)) < 3)%nat /\
  result (getPitch 3 silent4) = Normal NaN.
Proof.
  split; [vm_compute; reflexivity |]. split; [simpl; lia |]. split; [simpl; lia |].
  apply (getPitch_short_frame_NaN 3 silent4);
    [vm_compute; reflexivity | simpl; lia | simpl; lia].
Defined.

(** ** Frames without any variation *)

Lemma sub_self (c : number) : sub c c = zero \/ sub c c = NaN.
Proof.
  destruct c as [s | s | | s m e].
  - left. now destruct s.
  - right. now destruct s.
  - now right.
  - left. unfold sub, SFsub. rewrite Z.min_id.
    unfold shl_align. rewrite Z.sub_diag. simpl fst.
    rewrite ?Z.sub_diag. reflexivity.
Qed.

Lemma mul_zero_div_zero (x : number) : mul zero (div x zero) = NaN.
Proof. destruct x as [[|] | [|] | | [|] m e]; reflexivity. Qed.

Lemma fold_add_zeros {A} (l : list A) :
  fold_left add (map (fun _ => zero) l) zero = zero.
Proof. induction l as [| a l IH]; [reflexivity | exact IH]. Qed.

Lemma fold_add_NaNs {A} (l : list A) (acc : number) :
  l <> [] -> fold_left add (map (fun _ => NaN) l) acc = NaN.
Proof.
  intros Hl. destruct l as [| a l]; [contradiction |]. simpl.
  rewrite add_NaN_r. clear. induction l as [| b l IH]; [reflexivity | exact IH].
Qed.

Lemma rd_constant (d : list number) (c : number) (i : nat) :
  Forall (fun x => x = c) d -> (i < length d)%nat -> rd d i = c.
Proof.
  intros Hc Hi. unfold rd.
  destruct (nth_error d i) as [x |] eqn:E.
  - apply nth_error_In in E. rewrite Forall_forall in Hc. now apply Hc.
  - apply nth_error_None in E. lia.
Qed.

(** On a frame whose samples are all the same number, every sum and every
    running total of Phase A is 0 (or NaN, for a frame of infinities or
    NaNs), and the value stored at every lag from 1 on is NaN. *)
Lemma asf_entry_constant_frame (d : list number) (c : number) (L tau : nat) :
  Forall (fun x => x = c) d ->
  length d = (2 * L)%nat ->
  (1 <= tau < L)%nat ->
  asf_entry d L tau = NaN.
Proof.
  intros Hc Hd Htau.
  assert (Hsq : forall k i, (k < L)%nat -> (i < L)%nat ->
                            asf_sq d k i = pow2 (sub c c)).
  { intros k i Hk Hi. unfold asf_sq.
    now rewrite !(rd_constant d c) by (assumption || lia). }
  assert (Hsum : forall k, (k < L)%nat ->
                           asf_sum d L k
                           = fold_left add (map (fun _ => pow2 (sub c c)) (seq 0 L)) zero).
  { intros k Hk. unfold asf_sum. f_equal. apply map_ext_in.
    intros i Hi. apply in_seq in Hi. apply Hsq; lia. }
  assert (Htot : asf_total d L tau
                 = fold_left add
                     (map (fun _ => fold_left add
                                      (map (fun _ => pow2 (sub c c)) (seq 0 L)) zero)
                          (seq 1 tau)) zero).
  { unfold asf_total. f_equal. apply map_ext_in.
    intros k Hk. apply in_seq in Hk. apply Hsum. lia. }
  destruct tau as [| tau']; [lia |].
  unfold asf_entry. rewrite Htot, Hsum by lia.
  destruct (sub_self c) as [-> | ->].
  - change (pow2 zero) with zero. rewrite !fold_add_zeros.
    now rewrite mul_zero_div_zero.
  - change (pow2 NaN) with NaN.
    rewrite (fold_add_NaNs (seq 0 L)) by (destruct L; [lia | discriminate]).
    now rewrite mul_NaN_l.
Qed.

(** X4: for a frame whose samples are all equal (a silent frame, or any
    constant level), whatever the frame length, the threshold and the sample
    rate, [getPitch] completes and returns NaN. *)
Theorem getPitch_constant_frame_NaN (fuel : nat) (h : Heap) (c : number) :
  accepts h = true ->
  (length (_yinBuffer (this h)) < fuel)%nat ->
  length (data h) = (2 * length (_yinBuffer (this h)))%nat ->
  Forall (fun x => x = c) (data h) ->
  result (getPitch fuel h) = Normal NaN.
Proof.
  intros Hacc Hfuel Hd Hc.
  set (L := length (_yinBuffer (this h))) in *.
  assert (HL : length (_yinBuffer (this (after_asf h))) = L).
  { simpl. apply asf_buffer_length. }
  destruct (step4_run fuel (after_asf h) ltac:(rewrite HL; exact Hfuel))
    as (tau & t & E & Ht).
  apply (getPitch_result_NaN fuel h tau Hacc Hfuel); [now rewrite E |].
  apply refinedPeriod_NaN. right. left.
  destruct (Z_lt_le_dec tau (Z.of_nat L)) as [Hlt | Hge].
  - unfold Spec.sb. replace tau with (Z.of_nat (Z.to_nat tau)) by lia.
    rewrite array_get_of_nat. simpl. fold L.
    rewrite asf_buffer_nth by lia. simpl.
    apply (asf_entry_constant_frame (data h) c L); [assumption | assumption | lia].
  - apply sb_outside. rewrite HL. exact Hge.
Qed.

Lemma getPitch_constant_frame_NaN_witness :
  accepts silent8 = true /\
  (length (_yinBuffer (this silent8)) < 5)%nat /\
  length (data silent8) = (2 * length (_yinBuffer (this silent8)))%nat /\
  Forall (fun x => x = zero) (data silent8) /\
  result (getPitch 5 silent8) = Normal NaN.
Proof.
  assert (Hc : Forall (fun x => x = zero) (data silent8))
    by (repeat constructor).
  split; [vm_compute; reflexivity |]. split; [simpl; lia |].
  split; [reflexivity |]. split; [exact Hc |].
  apply (getPitch_constant_frame_NaN 5 silent8 zero);
    [vm_compute; reflexivity | simpl; lia | reflexivity | exact Hc].
Defined.

(** ** Integers as numbers

    An integer below 2^53 in absolute value is a number exactly: its
    mantissa is the integer shifted to 53 bits. *)

Lemma iter_xO_value (p k : positive) :
  Z.pos (Pos.iter xO p k) = Z.pos p * 2 ^ Z.pos k.
Proof.
  induction k as [| k IH] using Pos.peano_ind.
  - simpl. lia.
  - rewrite Pos.iter_succ, Pos2Z.inj_succ, Z.pow_succ_r by lia.
    rewrite Pos2Z.inj_xO, IH. lia.
Qed.

Lemma iter_xO_digits (p k : positive) :
  digits2_pos (Pos.iter xO p k) = (digits2_pos p + k)%positive.
Proof.
  induction k as [| k IH] using Pos.peano_ind.
  - simpl. lia.
  - rewrite Pos.iter_succ. simpl. rewrite IH. lia.
Qed.

Lemma fexp_53 (e : Z) : -1074 <= e -> fexp prec emax (53 + e) = e.
Proof. intros H. unfold fexp, emin, prec, emax. lia. Qed.

Lemma shr_fexp_exact (M : positive) (e : Z) :
  digits2_pos M = 53%positive ->
  -1074 <= e ->
  shr_fexp prec emax (Z.pos M) e loc_Exact
  = ({| shr_m := Z.pos M; shr_r := false; shr_s := false |}, e).
Proof.
  intros Hd He. unfold shr_fexp, Zdigits2.
  rewrite Hd, fexp_53, Z.sub_diag by assumption. reflexivity.
Qed.

Lemma binary_round_aux_exact (s : bool) (M : positive) (e : Z) :
  digits2_pos M = 53%positive ->
  -1074 <= e <= 971 ->
  binary_round_aux prec emax s (Z.pos M) e loc_Exact = S754_finite s M e.
Proof.
  intros Hd He. unfold binary_round_aux.
  rewrite shr_fexp_exact by (assumption || lia).
  cbn [shr_m loc_of_shr_record round_nearest_even].
  rewrite shr_fexp_exact by (assumption || lia).
  cbn [shr_m]. unfold prec, emax.
  destruct (Z.leb_spec e (1024 - 53)); [reflexivity | lia].
Qed.

Lemma binary_round_pos (s : bool) (p : positive) :
  Z.pos (digits2_pos p) <= 53 ->
  exists M,
    binary_round prec emax s p 0 = S754_finite s M (Z.pos (digits2_pos p) - 53) /\
    digits2_pos M = 53%positive /\
    Z.pos M = Z.pos p * 2 ^ (53 - Z.pos (digits2_pos p)).
Proof.
  intros Hd. unfold binary_round.
  replace (fexp prec emax (Z.pos (digits2_pos p) + 0)) with (Z.pos (digits2_pos p) - 53)
    by (unfold fexp, emin, prec, emax; lia).
  unfold shl_align.
  destruct (Z.pos (digits2_pos p) - 53 - 0) as [| k | k] eqn:E; try lia.
  - exists p. rewrite binary_round_aux_exact.
    + repeat split; [f_equal; lia | lia |].
      replace (53 - Z.pos (digits2_pos p)) with 0 by lia. lia.
    + lia.
    + lia.
  - exists (Pos.iter xO p k).
    assert (Hdig : digits2_pos (Pos.iter xO p k) = 53%positive).
    { rewrite iter_xO_digits. lia. }
    rewrite binary_round_aux_exact by (assumption || lia).
    repeat split; [assumption |].
    rewrite iter_xO_value. f_equal. f_equal. lia.
Qed.

Lemma digits2_pos_size (p : positive) : digits2_pos p = Pos.size p.
Proof. induction p; simpl; congruence. Qed.

Lemma digits2_pos_bound (p : positive) :
  Z.pos p < 2 ^ 53 -> Z.pos (digits2_pos p) <= 53.
Proof.
  intros H. rewrite digits2_pos_size.
  pose proof (Pos.size_le p) as Hle.
  apply Pos2Z.pos_le_pos in Hle. rewrite Pos2Z.inj_pow in Hle.
  change (Z.pos p~0) with (2 * Z.pos p) in Hle.
  destruct (Z_le_gt_dec (Z.pos (Pos.size p)) 53) as [Hs | Hs]; [exact Hs |].
  assert (2 ^ 54 <= 2 ^ Z.pos (Pos.size p)) by (apply Z.pow_le_mono_r; lia).
  assert (E54 : 2 ^ 54 = 2 * 2 ^ 53) by reflexivity.
  lia.
Qed.

Lemma integer_value_normal (s : bool) (M p : positive) (d : Z) :
  0 < d <= 53 ->
  Z.pos M = Z.pos p * 2 ^ (53 - d) ->
  integer_value (S754_finite s M (d - 53)) = Some (cond_Zopp s (Z.pos p)).
Proof.
  intros Hd HM. unfold integer_value.
  destruct (Z.leb_spec 0 (d - 53)) as [H0 | H0].
  - assert (d = 53) as -> by lia. simpl Z.sub in *.
    rewrite Z.shiftl_0_r. do 2 f_equal. simpl in HM. lia.
  - replace (- (d - 53)) with (53 - d) by lia.
    rewrite Z.land_ones by lia. rewrite HM, Z.mod_mul by lia.
    simpl Z.eqb. cbv iota.
    rewrite Z.shiftr_div_pow2 by lia. rewrite Z.div_mul by lia. reflexivity.
Qed.

Lemma integer_value_of_Z (n : Z) :
  Z.abs n < 2 ^ 53 -> integer_value (of_Z n) = Some n.
Proof.
  intros H. destruct n as [| p | p]; [reflexivity | |].
  - assert (Hd : Z.pos (digits2_pos p) <= 53) by (apply digits2_pos_bound; lia).
    destruct (binary_round_pos false p Hd) as (M & E & _ & HM).
    unfold of_Z, binary_normalize. rewrite E.
    apply (integer_value_normal false M p); [lia | exact HM].
  - assert (Hd : Z.pos (digits2_pos p) <= 53) by (apply digits2_pos_bound; lia).
    destruct (binary_round_pos true p Hd) as (M & E & _ & HM).
    unfold of_Z, binary_normalize. rewrite E.
    apply (integer_value_normal true M p); [lia | exact HM].
Qed.

Lemma SFeqb_finite_eq (m1 m2 : positive) (e1 e2 : Z) :
  SFeqb (S754_finite false m1 e1) (S754_finite false m2 e2) = true ->
  m1 = m2 /\ e1 = e2.
Proof.
  unfold SFeqb, SFcompare.
  destruct (e1 ?= e2) eqn:E; try discriminate.
  apply Z.compare_eq in E.
  destruct (Pos.compare_cont Eq m1 m2) eqn:C; try discriminate.
  intros _. split; [| exact E]. now apply Pos.compare_eq.
Qed.

Lemma SFeqb_finite_refl (s : bool) (m : positive) (e : Z) :
  SFeqb (S754_finite s m e) (S754_finite s m e) = true.
Proof.
  unfold SFeqb, SFcompare. rewrite Z.compare_refl.
  change (Pos.compare_cont Eq m m) with (Pos.compare m m).
  rewrite Pos.compare_refl. now destruct s.
Qed.

Lemma SFeqb_of_Z (a b : Z) :
  0 <= a < 2 ^ 53 -> 0 <= b < 2 ^ 53 ->
  SFeqb (of_Z a) (of_Z b) = (a =? b).
Proof.
  intros Ha Hb.
  destruct (Z.eqb_spec a b) as [-> | Hne].
  - destruct b as [| p | p]; [reflexivity | | lia].
    assert (Hd : Z.pos (digits2_pos p) <= 53) by (apply digits2_pos_bound; lia).
    destruct (binary_round_pos false p Hd) as (M & E & _).
    unfold of_Z, binary_normalize. rewrite E. apply SFeqb_finite_refl.
  - destruct (SFeqb (of_Z a) (of_Z b)) eqn:E; [| reflexivity].
    exfalso. apply Hne.
    assert (Ia := integer_value_of_Z a ltac:(lia)).
    assert (Ib := integer_value_of_Z b ltac:(lia)).
    destruct a as [| p | p], b as [| q | q]; try lia; try discriminate E.
    + exfalso.
      assert (Hd : Z.pos (digits2_pos q) <= 53) by (apply digits2_pos_bound; lia).
      destruct (binary_round_pos false q Hd) as (M & Eq & _).
      unfold of_Z, binary_normalize in E. rewrite Eq in E. discriminate E.
    + exfalso.
      assert (Hd : Z.pos (digits2_pos p) <= 53) by (apply digits2_pos_bound; lia).
      destruct (binary_round_pos false p Hd) as (M & Eq & _).
      unfold of_Z, binary_normalize in E. rewrite Eq in E. discriminate E.
    + assert (Hp : Z.pos (digits2_pos p) <= 53) by (apply digits2_pos_bound; lia).
      assert (Hq : Z.pos (digits2_pos q) <= 53) by (apply digits2_pos_bound; lia).
      destruct (binary_round_pos false p Hp) as (M1 & E1 & _).
      destruct (binary_round_pos false q Hq) as (M2 & E2 & _).
      unfold of_Z, binary_normalize in *. rewrite E1, E2 in E.
      apply SFeqb_finite_eq in E. destruct E as [-> He].
      rewrite E1 in Ia. rewrite E2 in Ib. rewrite He in Ia. congruence.
Qed.

Lemma div_eucl_pair (a b : Z) : Z.div_eucl a b = (a / b, a mod b).
Proof. unfold Z.div, Z.modulo. now destruct (Z.div_eucl a b). Qed.

Lemma SFdiv_core_by_two (M : positive) (e : Z) :
  digits2_pos M = 53%positive ->
  -1072 <= e ->
  SFdiv_core_binary prec emax (Z.pos M) e 4503599627370496 (-51)
  = (Z.pos M~0, e - 2, loc_Exact).
Proof.
  intros Hd He. unfold SFdiv_core_binary, Zdigits2. rewrite Hd.
  change (digits2_pos 4503599627370496) with 53%positive.
  replace (Z.min (fexp prec emax (53 + e - (53 + -51))) (e - -51)) with (e - 2)
    by (unfold fexp, emin, prec, emax; lia).
  replace (e - -51 - (e - 2)) with 53 by lia.
  rewrite div_eucl_pair.
  rewrite Z.shiftl_mul_pow2 by lia.
  replace (Z.pos M * 2 ^ 53) with (Z.pos M~0 * 4503599627370496)
    by (change (2 ^ 53) with (2 * 4503599627370496); lia).
  rewrite Z.div_mul, Z.mod_mul by lia. reflexivity.
Qed.

Lemma div_two_normal (s : bool) (M : positive) (e : Z) :
  digits2_pos M = 53%positive ->
  -1072 <= e <= 971 ->
  div (S754_finite s M e) two = S754_finite s M (e - 1).
Proof.
  intros Hd He. unfold div, two, SFdiv.
  rewrite SFdiv_core_by_two by (assumption || lia).
  unfold binary_round_aux.
  assert (E1 : shr_fexp prec emax (Z.pos M~0) (e - 2) loc_Exact
               = ({| shr_m := Z.pos M; shr_r := false; shr_s := false |}, e - 1)).
  { unfold shr_fexp, Zdigits2. simpl digits2_pos. rewrite Hd.
    change (Z.pos (Pos.succ 53)) with 54.
    replace (fexp prec emax (54 + (e - 2)) - (e - 2)) with 1
      by (unfold fexp, emin, prec, emax; lia).
    unfold shr, iter_pos, shr_record_of_loc, shr_1. simpl orb.
    f_equal. lia. }
  rewrite E1. cbn [shr_m loc_of_shr_record round_nearest_even].
  rewrite shr_fexp_exact by (assumption || lia).
  cbn [shr_m]. unfold prec, emax.
  destruct (Z.leb_spec (e - 1) (1024 - 53)); [| lia].
  now rewrite xorb_false_r.
Qed.

Lemma div_binary_round_double (s : bool) (p : positive) :
  Z.pos p~0 < 2 ^ 53 ->
  div (binary_round prec emax s p~0 0) two = binary_round prec emax s p 0.
Proof.
  intros Hn.
  assert (Hp : Z.pos (digits2_pos p) <= 53) by (apply digits2_pos_bound; lia).
  assert (Hp2 : Z.pos (digits2_pos p~0) <= 53) by (apply digits2_pos_bound; lia).
  destruct (binary_round_pos s p Hp) as (M1 & E1 & D1 & V1).
  destruct (binary_round_pos s p~0 Hp2) as (M2 & E2 & D2 & V2).
  rewrite E1, E2.
  simpl digits2_pos in *. rewrite Pos2Z.inj_succ in *.
  assert (M2 = M1) as ->.
  { apply Pos2Z.inj. rewrite V1, V2.
    replace (53 - Z.pos (digits2_pos p))
      with (Z.succ (53 - Z.succ (Z.pos (digits2_pos p)))) by lia.
    rewrite Z.pow_succ_r by lia. lia. }
  rewrite div_two_normal by (assumption || lia).
  f_equal. lia.
Qed.

(** Halving an even integer is exact. *)
Lemma div_of_Z_even (n : Z) :
  Z.abs (2 * n) < 2 ^ 53 -> div (of_Z (2 * n)) two = of_Z n.
Proof.
  intros Hn. destruct n as [| p | p]; [reflexivity | |].
  - change (2 * Z.pos p) with (Z.pos p~0).
    apply (div_binary_round_double false p). lia.
  - change (2 * Z.neg p) with (Z.neg p~0).
    apply (div_binary_round_double true p). lia.
Qed.

Lemma of_Z_pos_finite (n : Z) :
  0 < n < 2 ^ 53 -> exists M e, of_Z n = S754_finite false M e.
Proof.
  intros Hn. destruct n as [| p | p]; try lia.
  assert (Hd : Z.pos (digits2_pos p) <= 53) by (apply digits2_pos_bound; lia).
  destruct (binary_round_pos false p Hd) as (M & E & _).
  unfold of_Z, binary_normalize. rewrite E. eauto.
Qed.

Lemma isSafeInteger_of_Z (n : Z) :
  Z.abs n < 2 ^ 53 -> isSafeInteger (of_Z n) = true.
Proof.
  intros Hn. unfold isSafeInteger. rewrite integer_value_of_Z by exact Hn.
  apply Z.leb_le. lia.
Qed.

Lemma Float32Array_new_of_Z (n : Z) :
  0 <= n < 2 ^ 53 ->
  Float32Array_new (of_Z n)
  = if 2 ^ 53 - 1 <? 4 * n then None else Some (repeat zero (Z.to_nat n)).
Proof.
  intros Hn.
  assert (Ht : trunc (of_Z n) = Some n)
    by (apply integer_value_trunc, integer_value_of_Z; lia).
  unfold Float32Array_new. rewrite Ht.
  replace ((n <? 0) || (2 ^ 53 - 1 <? n)) with false.
  - destruct (of_Z n); [reflexivity | reflexivity | discriminate Ht | reflexivity].
  - symmetry. apply orb_false_iff. split; apply Z.ltb_ge; lia.
Qed.

Lemma Float32Array_new_of_Z_some (n : Z) (buf : list number) :
  0 <= n < 2 ^ 53 ->
  Float32Array_new (of_Z n) = Some buf ->
  buf = repeat zero (Z.to_nat n).
Proof.
  intros Hn. rewrite Float32Array_new_of_Z by exact Hn.
  destruct (2 ^ 53 - 1 <? 4 * n); congruence.
Qed.


(** ** Constructing an estimator *)

Lemma constructor_passes_checks
      (n r : Z) (t : number) (threshold : value) :
  Z.abs n < 2 ^ 53 -> Z.odd n = false ->
  0 < r < 2 ^ 53 ->
  threshold = VNumber t \/ threshold = VUndefined /\ t = DEFAULT_THRESHOLD ->
  leb t zero = false -> geb t one = false ->
  constructor (of_Z n) (of_Z r) threshold
  = match Float32Array_new (div (of_Z n) two) with
    | Some buf => Normal (mkYin (of_Z n) (of_Z r) t buf)
    | None => Throw (RangeError "Invalid typed array length")
    end.
Proof.
  intros Hn Hodd Hr Hthr H0 H1.
  unfold constructor.
  rewrite land_1_odd.
  rewrite (ToInt32_parity (of_Z n) n)
    by (apply integer_value_trunc, integer_value_of_Z; exact Hn).
  rewrite Hodd.
  destruct (of_Z_pos_finite r Hr) as (M & e & Er).
  replace (leb (of_Z r) zero) with false by (now rewrite Er).
  rewrite isSafeInteger_of_Z by lia. simpl.
  destruct Hthr as [-> | [-> ->]]; now rewrite H0, H1.
Qed.

(** X5: [new Yin(2 * L, r, t)], for [L >= 0], an integer rate [r > 0] and a
    threshold that is neither [<= 0] nor [>= 1] (or omitted), passes the
    three argument checks: it never throws a TypeError. Either it succeeds,
    and then it stores the three arguments and a scratch buffer of [L]
    zeros, or the allocation of the scratch buffer throws a RangeError. *)
Theorem constructor_valid_arguments (L r : Z) (t : number) (threshold : value) :
  0 <= L -> 2 * L < 2 ^ 53 ->
  0 < r < 2 ^ 53 ->
  threshold = VNumber t \/ threshold = VUndefined /\ t = DEFAULT_THRESHOLD ->
  leb t zero = false -> geb t one = false ->
  constructor (of_Z (2 * L)) (of_Z r) threshold
  = Normal (mkYin (of_Z (2 * L)) (of_Z r) t (repeat zero (Z.to_nat L))) \/
  exists msg,
    constructor (of_Z (2 * L)) (of_Z r) threshold = Throw (RangeError msg).
Proof.
  intros HL0 HL Hr Hthr H0 H1.
  rewrite (constructor_passes_checks (2 * L) r t threshold);
    try assumption; try lia.
  - rewrite div_of_Z_even by lia.
    rewrite Float32Array_new_of_Z by lia.
    destruct (2 ^ 53 - 1 <? 4 * L); [right; eauto | left; reflexivity].
  - rewrite Z.odd_mul. reflexivity.
Qed.

Lemma constructor_valid_arguments_witness :
  0 <= 4 /\ 2 * 4 < 2 ^ 53 /\ 0 < 8000 < 2 ^ 53 /\
  (VUndefined = VNumber DEFAULT_THRESHOLD \/
   VUndefined = VUndefined /\ DEFAULT_THRESHOLD = DEFAULT_THRESHOLD) /\
  leb DEFAULT_THRESHOLD zero = false /\ geb DEFAULT_THRESHOLD one = false /\
  (constructor (of_Z (2 * 4)) (of_Z 8000) VUndefined
   = Normal (mkYin (of_Z (2 * 4)) (of_Z 8000) DEFAULT_THRESHOLD (repeat zero (Z.to_nat 4))) \/
   exists msg,
     constructor (of_Z (2 * 4)) (of_Z 8000) VUndefined = Throw (RangeError msg)).
Proof.
  split; [lia |]. split; [reflexivity |]. split; [split; reflexivity |].
  split; [right; split; reflexivity |]. split; [reflexivity |]. split; [reflexivity |].
  apply (constructor_valid_arguments 4 8000 DEFAULT_THRESHOLD VUndefined);
    [lia | reflexivity | split; reflexivity | right; split; reflexivity
    | reflexivity | reflexivity].
Defined.





Lemma integer_value_positive (m : positive) (e i : Z) :
  integer_value (S754_finite false m e) = Some i -> 0 < i.
Proof.
  unfold integer_value, cond_Zopp.
  destruct (Z.leb_spec 0 e) as [He | He].
  - intros [= <-]. rewrite Z.shiftl_mul_pow2 by lia.
    apply Z.mul_pos_pos; [lia | apply Z.pow_pos_nonneg; lia].
  - destruct (Z.eqb_spec (Z.land (Z.pos m) (Z.ones (- e))) 0) as [Hz | Hz];
      [| discriminate].
    intros [= <-]. rewrite Z.land_ones in Hz by lia.
    rewrite Z.shiftr_div_pow2 by lia.
    assert (Hp : 0 < 2 ^ (- e)) by (apply Z.pow_pos_nonneg; lia).
    pose proof (Z.div_mod (Z.pos m) (2 ^ (- e)) ltac:(lia)) as Hdm.
    rewrite Hz in Hdm. nia.
Qed.

(** X7: an estimator is only ever constructed with a sample rate that is an
    integer from 1 to 2^53 - 1; zero, negative numbers, fractions, NaN and
    the infinities never get through. *)
Theorem constructor_sampleRate_positive_safe_integer
        (bufferLength sampleRate : number) (threshold : value) (y : Yin) :
  constructor bufferLength sampleRate threshold = Normal y ->
  _sampleRate y = sampleRate /\
  exists n, integer_value sampleRate = Some n /\ 0 < n <= 2 ^ 53 - 1.
Proof.
  intros E. apply constructor_normal in E.
  destruct E as (_ & Hs & _ & _ & Hle & Hsafe & _).
  split; [exact Hs |].
  unfold isSafeInteger in Hsafe.
  destruct (integer_value sampleRate) as [n |] eqn:Hn; [| discriminate].
  exists n. split; [reflexivity |].
  apply Z.leb_le in Hsafe.
  destruct sampleRate as [s | s | | s m e]; try discriminate Hn.
  - discriminate Hle.
  - destruct s; [discriminate Hle |].
    apply integer_value_positive in Hn. lia.
Qed.

Lemma constructor_sampleRate_positive_safe_integer_witness :
  constructor (of_Z 8) (of_Z 8000) VUndefined = Normal yin8 /\
  _sampleRate yin8 = of_Z 8000 /\
  exists n, integer_value (of_Z 8000) = Some n /\ 0 < n <= 2 ^ 53 - 1.
Proof.
  split; [vm_compute; reflexivity |].
  apply (constructor_sampleRate_positive_safe_integer (of_Z 8) (of_Z 8000) VUndefined yin8).
  vm_compute. reflexivity.
Defined.

(** ** Calls on a constructed estimator *)

Lemma accepts_of_Z (h : Heap) (n : Z) :
  _bufferLength (this h) = of_Z n ->
  0 <= n < 2 ^ 53 ->
  Z.of_nat (length (data h)) < 2 ^ 53 ->
  accepts h = (Z.of_nat (length (data h)) =? n).
Proof.
  intros Hb Hn Hd. unfold accepts, strict_eq. rewrite Hb.
  apply SFeqb_of_Z; lia.
Qed.

(** X8: on an estimator with frame length [n], a frame of any other length
    makes [getPitch] throw the TypeError "Incorrect buffer size" before any
    array is read or written; the heap is untouched. *)
Theorem getPitch_rejects_wrong_length (fuel : nat) (h : Heap) (n : Z) :
  _bufferLength (this h) = of_Z n ->
  0 <= n < 2 ^ 53 ->
  Z.of_nat (length (data h)) < 2 ^ 53 ->
  Z.of_nat (length (data h)) <> n ->
  getPitch fuel h = (Throw (TypeError "Incorrect buffer size"), h, []).
Proof.
  intros Hb Hn Hd Hne. apply getPitch_rejected.
  rewrite (accepts_of_Z h n Hb Hn Hd). now apply Z.eqb_neq.
Qed.

Lemma getPitch_rejects_wrong_length_witness :
  _bufferLength (this (mkHeap yin8 (nums [1; 2; 3]))) = of_Z 8 /\
  0 <= 8 < 2 ^ 53 /\
  Z.of_nat (length (data (mkHeap yin8 (nums [1; 2; 3])))) < 2 ^ 53 /\
  Z.of_nat (length (data (mkHeap yin8 (nums [1; 2; 3])))) <> 8 /\
  getPitch 5 (mkHeap yin8 (nums [1; 2; 3]))
  = (Throw (TypeError "Incorrect buffer size"), mkHeap yin8 (nums [1; 2; 3]), []).
Proof.
  split; [reflexivity |]. split; [split; [lia | reflexivity] |].
  split; [reflexivity |]. split; [simpl; lia |].
  apply (getPitch_rejects_wrong_length 5 (mkHeap yin8 (nums [1; 2; 3])) 8);
    [reflexivity | split; [lia | reflexivity] | reflexivity | simpl; lia].
Defined.

(** X9: an estimator built by [new Yin(2 * L, ...)] and given a frame of
    [2 * L] samples never throws and never runs forever: [getPitch] returns
    a number, leaves the frame as it was and keeps the scratch buffer at
    length [L]. *)
Theorem getPitch_on_constructed_completes
        (L : nat) (sampleRate : number) (threshold : value) (y : Yin)
        (d : list number) (fuel : nat) :
  constructor (of_Z (2 * Z.of_nat L)) sampleRate threshold = Normal y ->
  2 * Z.of_nat L < 2 ^ 53 ->
  length d = (2 * L)%nat ->
  (L < fuel)%nat ->
  exists r h' t,
    getPitch fuel (mkHeap y d) = (Normal r, h', t) /\
    data h' = d /\ length (_yinBuffer (this h')) = L.
Proof.
  intros Ec HL Hd Hfuel.
  apply constructor_normal in Ec.
  destruct Ec as (Hb & _ & Hbuf & _).
  rewrite div_of_Z_even in Hbuf by lia.
  apply Float32Array_new_of_Z_some in Hbuf; [| lia].
  assert (Hlen : length (_yinBuffer y) = L).
  { rewrite Hbuf, repeat_length. lia. }
  set (h := mkHeap y d).
  assert (Hacc : accepts h = true).
  { rewrite (accepts_of_Z h (2 * Z.of_nat L) Hb);
      unfold h; cbn [data]; rewrite ?Hd; [apply Z.eqb_eq | |]; lia. }
  destruct (getPitch_hoare any_access h fuel Hacc
              ltac:(simpl; rewrite Hlen; exact Hfuel)
              (asf_accesses_any _) (step4_accesses_any _)
              ltac:(intros; repeat split) h eq_refl)
    as (r & h' & t & E & _ & ->).
  exists r, (after_asf h), t. split; [exact E |].
  split; [reflexivity |]. simpl. rewrite asf_buffer_length. exact Hlen.
Qed.

Lemma getPitch_on_constructed_completes_witness :
  constructor (of_Z (2 * Z.of_nat 4)) (of_Z 8000) VUndefined = Normal yin8 /\
  2 * Z.of_nat 4 < 2 ^ 53 /\
  length (nums [1; 0; 1; 0; 1; 1; 0; 0]) = (2 * 4)%nat /\
  (4 < 5)%nat /\
  exists r h' t,
    getPitch 5 (mkHeap yin8 (nums [1; 0; 1; 0; 1; 1; 0; 0])) = (Normal r, h', t) /\
    data h' = nums [1; 0; 1; 0; 1; 1; 0; 0] /\ length (_yinBuffer (this h')) = 4%nat.
Proof.
  split; [vm_compute; reflexivity |]. split; [reflexivity |].
  split; [reflexivity |]. split; [lia |].
  apply (getPitch_on_constructed_completes 4 (of_Z 8000) VUndefined yin8
           (nums [1; 0; 1; 0; 1; 1; 0; 0]) 5);
    [vm_compute; reflexivity | reflexivity | reflexivity | lia].
Defined.

(** ** More on [_estimatePeriod] *)

(** X10: on any heap [_estimatePeriod] completes, leaves the heap as it
    was and returns a number, never [null]; the branch of [getPitch] that
    returns -1 cannot be reached. *)
Theorem estimatePeriod_returns_number (fuel : nat) (h : Heap) :
  (length (_yinBuffer (this h)) < fuel)%nat ->
  exists p t, _estimatePeriod fuel h = (Normal (Some p), h, t).
Proof.
  intros Hfuel.
  destruct (estimatePeriod_run fuel h Hfuel) as (tau & t4 & t & _ & E).
  eauto.
Qed.

Lemma estimatePeriod_returns_number_witness :
  (length (_yinBuffer (this pulses8)) < 5)%nat /\
  exists p t, _estimatePeriod 5 pulses8 = (Normal (Some p), pulses8, t).
Proof.
  split; [simpl; lia |].
  apply (estimatePeriod_returns_number 5 pulses8). simpl. lia.
Defined.

(** X11: with a NaN threshold (which the constructor lets through) Phase B
    skips no lag: the lag it returns ends the strictly descending run of
    buffer values that starts at lag 2. *)
Theorem step4_NaN_threshold (fuel : nat) (h : Heap) :
  _threshold (this h) = NaN ->
  (length (_yinBuffer (this h)) < fuel)%nat ->
  let buf := Spec.sb (_yinBuffer (this h)) in
  exists tau t,
    _estimatePeriod_step4 fuel h = (Normal tau, h, t) /\
    2 <= tau <= Z.max 2 (maxLag_of h) /\
    (forall j, 2 <= j < tau -> ltb (buf (j + 1)) (buf j) = true) /\
    (tau < maxLag_of h -> ltb (buf (tau + 1)) (buf tau) = false).
Proof.
  intros Hthr Hfuel buf.
  destruct (step4_search_hoare h fuel Hfuel h eq_refl)
    as (tau & h' & t & E & _ & -> & tau1 & [Hr Ha] & Hx & [Hr' Hd] & Hy).
  assert (tau1 = 2) as ->.
  { destruct (Z.eq_dec tau1 2) as [-> | Hne]; [reflexivity |].
    specialize (Ha 2 ltac:(lia)). rewrite Hthr in Ha.
    unfold geb in Ha. simpl in Ha. discriminate Ha. }
  exists tau, t. repeat split; auto; lia.
Qed.

Lemma step4_NaN_threshold_witness :
  _threshold (this nan_threshold_heap) = NaN /\
  (length (_yinBuffer (this nan_threshold_heap)) < 5)%nat /\
  exists tau t,
    _estimatePeriod_step4 5 nan_threshold_heap = (Normal tau, nan_threshold_heap, t) /\
    2 <= tau <= Z.max 2 (maxLag_of nan_threshold_heap) /\
    (forall j, 2 <= j < tau ->
       ltb (Spec.sb (_yinBuffer (this nan_threshold_heap)) (j + 1))
           (Spec.sb (_yinBuffer (this nan_threshold_heap)) j) = true) /\
    (tau < maxLag_of nan_threshold_heap ->
       ltb (Spec.sb (_yinBuffer (this nan_threshold_heap)) (tau + 1))
           (Spec.sb (_yinBuffer (this nan_threshold_heap)) tau) = false).
Proof.
  split; [reflexivity |]. split; [simpl; lia |].
  apply (step4_NaN_threshold 5 nan_threshold_heap); [reflexivity | simpl; lia].
Defined.

(** ** Witnesses *)

Lemma asf_and_step4_in_bounds_witness :
  length (_yinBuffer (this click8)) = 4%nat /\
  length (data click8) = (2 * 4)%nat /\
  (0 < 4)%nat /\ (4 < 5)%nat /\
  Forall (in_bounds 4) (trace_of ((_asf ;; _estimatePeriod_step4 5) click8)).
Proof.
  split; [reflexivity |]. split; [reflexivity |]. split; [lia |]. split; [lia |].
  apply (asf_and_step4_in_bounds 5 click8 4); [reflexivity | reflexivity | lia | lia].
Defined.

Lemma getPitch_accesses_witness :
  length (_yinBuffer (this click8)) = 4%nat /\
  length (data click8) = (2 * 4)%nat /\
  accepts click8 = true /\
  (4 < 5)%nat /\ (3 <= 4)%nat /\
  Forall (fun a => in_bounds 4 a \/ a = ReadYin (Z.of_nat 4))
         (trace_of (getPitch 5 click8)).
Proof.
  split; [reflexivity |]. split; [reflexivity |].
  split; [vm_compute; reflexivity |]. split; [lia |]. split; [lia |].
  apply (getPitch_accesses 5 click8 4);
    [reflexivity | reflexivity | vm_compute; reflexivity | lia | lia].
Defined.

Lemma constructor_threshold_accepted_witness :
  constructor (of_Z 8) (of_Z 8000) VUndefined = Normal yin8 /\
  (_threshold yin8 = NaN \/
   ltb zero (_threshold yin8) = true /\ ltb (_threshold yin8) one = true).
Proof.
  split; [vm_compute; reflexivity |].
  apply (constructor_threshold_accepted (of_Z 8) (of_Z 8000) VUndefined yin8).
  vm_compute. reflexivity.
Defined.

Lemma constructor_rejects_threshold_witness :
  (leb one zero = true \/ geb one one = true) /\
  exists msg, constructor (of_Z 8) (of_Z 8000) (VNumber one) = Throw (TypeError msg).
Proof.
  split; [right; reflexivity |].
  apply (constructor_rejects_threshold (of_Z 8) (of_Z 8000) (VNumber one)).
  right. reflexivity.
Defined.

Lemma getPitch_ignores_scratch_contents_witness :
  length [NaN; one; NaN; two] = length (_yinBuffer (this pulses8)) /\
  result (getPitch 5 (with_buffer pulses8 [NaN; one; NaN; two]))
  = result (getPitch 5 pulses8).
Proof.
  split; [reflexivity |].
  apply (getPitch_ignores_scratch_contents 5 pulses8 [NaN; one; NaN; two]).
  reflexivity.
Defined.
